(** * Decision trees (ID3) from the "Decision Trees" notebook

    A shallow embedding of the notebook's functions [entropy],
    [class_probabilities], [data_entropy], [partition_entropy], [group_by],
    [partition_by], [partition_entropy_by], [classify], [build_tree_id3] and
    [forest_classify], together with the properties of the design document
    that concern them.

    Python values are modelled as follows.
    - A [dict] is an association list in insertion order with distinct keys
      (the order matters: [keys()], [items()] and [Counter] iterate in it).
    - An attribute dictionary maps attribute names to categorical tokens,
      both strings.  The result of [input.get(attribute)] is an [option]:
      [None] is Python's [None].
    - A tree is [True], [False] or a pair [(attribute, subtree_dict)]; the
      keys of [subtree_dict] are tokens or [None].
    - Exceptions are explicit: a fallible function returns a [result].
    - Floating-point numbers are an interface ([FloatOps]); the structural
      theorems hold for every implementation of it, the worked example is
      proved for its reading in the real numbers. *)

From Stdlib Require Import List String Ascii Bool Arith Lia ZArith.
From Stdlib Require Import Permutation Reals Lra.
Import ListNotations.
Local Open Scope string_scope.
Local Open Scope list_scope.
Local Open Scope nat_scope.

Set Implicit Arguments.
Set Warnings "-register-all".

(** ** Exceptions and the error monad *)

(** The Python exceptions the notebook's code can raise.  [RecursionError]
    stands for running out of recursion depth in [build_tree_id3]; the depth
    granted is shown to be always sufficient. *)
Inductive exn : Type :=
| IndexError
| KeyError
| ValueError
| ZeroDivisionError
| RecursionError.

Inductive result (A : Type) : Type :=
| Ok (a : A)
| Raise (e : exn).

Arguments Ok {A} a.
Arguments Raise {A} e.

Definition bind {A B : Type} (r : result A) (k : A -> result B) : result B :=
  match r with
  | Ok a => k a
  | Raise e => Raise e
  end.

Notation "x <- r ;; k" := (bind r (fun x => k))
  (at level 61, r at next level, right associativity).

(** A comprehension whose element expression may raise: elements are
    evaluated from left to right and the first exception aborts. *)
Fixpoint map_result {A B : Type} (f : A -> result B) (xs : list A)
  : result (list B) :=
  match xs with
  | [] => Ok []
  | x :: xs' =>
      y <- f x ;;
      ys <- map_result f xs' ;;
      Ok (y :: ys)
  end.

(** ** Dictionaries *)

Section Dict.
Variables K V : Type.
Variable eqb : K -> K -> bool.

Definition dict : Type := list (K * V).

(** [d.get(k)] *)
Fixpoint dict_get (d : dict) (k : K) : option V :=
  match d with
  | [] => None
  | (k', v) :: d' => if eqb k' k then Some v else dict_get d' k
  end.

(** [k in d] *)
Definition dict_mem (d : dict) (k : K) : bool :=
  existsb (fun kv => eqb (fst kv) k) d.

(** [d[k]] *)
Definition dict_getitem (d : dict) (k : K) : result V :=
  match dict_get d k with
  | Some v => Ok v
  | None => Raise KeyError
  end.

(** [d[k] = v]: overwrite in place, or insert at the end. *)
Fixpoint dict_set (d : dict) (k : K) (v : V) : dict :=
  match d with
  | [] => [(k, v)]
  | (k', v') :: d' =>
      if eqb k' k then (k', v) :: d' else (k', v') :: dict_set d' k v
  end.

Definition dict_keys (d : dict) : list K := map fst d.
Definition dict_values (d : dict) : list V := map snd d.
End Dict.

(** Keys of a [subtree_dict]: a token, or [None]. *)
Definition key_eqb (a b : option string) : bool :=
  match a, b with
  | Some x, Some y => String.eqb x y
  | None, None => true
  | _, _ => false
  end.

(** ** Data model *)

Definition attrs : Type := dict string string.
Definition example : Type := (attrs * bool)%type.

Inductive tree : Type :=
| Leaf (b : bool)
| Node (attribute : string) (subtree_dict : list (option string * tree)).

(** ** [collections.Counter] and [defaultdict(list)] *)

Section Counting.
Variable K : Type.
Variable eqb : K -> K -> bool.

(** [c[k] += 1] on a [Counter]. *)
Fixpoint counter_incr (c : dict K nat) (k : K) : dict K nat :=
  match c with
  | [] => [(k, 1)]
  | (k', n) :: c' =>
      if eqb k' k then (k', S n) :: c' else (k', n) :: counter_incr c' k
  end.

(** [Counter(xs)]: keys in order of first occurrence. *)
Definition Counter (xs : list K) : dict K nat :=
  fold_left counter_incr xs [].

(** The loop of [max(it, key=itemgetter(1))]: the running maximum is
    replaced only by a strictly larger count. *)
Fixpoint max_count_loop (best : K * nat) (c : dict K nat) : K * nat :=
  match c with
  | [] => best
  | kn :: c' =>
      if snd best <? snd kn then max_count_loop kn c'
      else max_count_loop best c'
  end.

(** [c.most_common(1)], which is [heapq.nlargest(1, c.items(), key=count)],
    itself [max] over the items in insertion order. *)
Definition most_common_1 (c : dict K nat) : list (K * nat) :=
  match c with
  | [] => []
  | kn :: c' => [max_count_loop kn c']
  end.

Variable A : Type.

(** [groups[key].append(item)] on a [defaultdict(list)]. *)
Fixpoint dict_append (groups : dict K (list A)) (key : K) (item : A)
  : dict K (list A) :=
  match groups with
  | [] => [(key, [item])]
  | (k, items) :: rest =>
      if eqb k key then (k, items ++ [item]) :: rest
      else (k, items) :: dict_append rest key item
  end.

(** The loop of [group_by]. *)
Fixpoint group_by_loop (items : list A) (key_fn : A -> result K)
         (groups : dict K (list A)) : result (dict K (list A)) :=
  match items with
  | [] => Ok groups
  | item :: rest =>
      key <- key_fn item ;;
      group_by_loop rest key_fn (dict_append groups key item)
  end.

Definition group_by (items : list A) (key_fn : A -> result K)
  : result (dict K (list A)) :=
  group_by_loop items key_fn [].
End Counting.

(** ** Partitioning *)

(** [partition_by]: the key function is [lambda x: x[0][attribute]], a plain
    subscript, which raises [KeyError] when the attribute is absent. *)
Definition partition_by (inputs : list example) (attribute : string)
  : result (dict string (list example)) :=
  group_by String.eqb inputs
           (fun x => dict_getitem String.eqb (fst x) attribute).

(** ** Classification *)

Fixpoint classify (t : tree) (input : attrs) : result bool :=
  match t with
  | Leaf b => Ok b
  | Node attribute subtree_dict =>
      let subtree_key := dict_get String.eqb input attribute in
      let subtree_key :=
        if dict_mem key_eqb subtree_dict subtree_key then subtree_key
        else None in
      (fix getitem (d : list (option string * tree)) : result bool :=
         match d with
         | [] => Raise KeyError
         | (k, subtree) :: d' =>
             if key_eqb k subtree_key then classify subtree input
             else getitem d'
         end) subtree_dict
  end.

(** ** Forest vote *)

Definition forest_classify (trees : list tree) (input : attrs) : result bool :=
  votes <- map_result (fun t => classify t input) trees ;;
  let vote_counts := Counter Bool.eqb votes in
  match most_common_1 vote_counts with
  | [] => Raise IndexError
  | (vote, _) :: _ => Ok vote
  end.

(** ** Floating-point interface *)

(** The operations on Python numbers that the entropy code uses.
    [of_int n] is the integer [n] taking part in float arithmetic,
    [flog2 p] is [math.log(p, 2)] ([None] outside its domain, where Python
    raises [ValueError]), [ftruthy p] is the truth value of [p] in [if p],
    and [flt] is the comparison [<] that [min] applies to the keys. *)
Class FloatOps : Type := {
  float : Type;
  of_int : nat -> float;
  fadd : float -> float -> float;
  fmul : float -> float -> float;
  fdiv : float -> float -> float;
  fneg : float -> float;
  flog2 : float -> option float;
  ftruthy : float -> bool;
  flt : float -> float -> bool
}.

Section ID3.
Context {FO : FloatOps}.

(** [sum(xs)]: starts from the integer [0] and adds from the left. *)
Definition py_sum (xs : list float) : float :=
  fold_left fadd xs (of_int 0).

(** The generator [-p * math.log(p, 2) for p in class_probabilities if p]. *)
Fixpoint entropy_terms (class_probabilities : list float)
  : result (list float) :=
  match class_probabilities with
  | [] => Ok []
  | p :: ps =>
      if ftruthy p then
        match flog2 p with
        | Some l =>
            rest <- entropy_terms ps ;;
            Ok (fmul (fneg p) l :: rest)
        | None => Raise ValueError
        end
      else entropy_terms ps
  end.

Definition entropy (class_probabilities : list float) : result float :=
  terms <- entropy_terms class_probabilities ;;
  Ok (py_sum terms).

(** [count / total_count] divides two integers; [total_count] is the
    number of labels and every count is taken among them, so the divisor
    is never zero when a quotient is formed. *)
Definition class_probabilities (labels : list bool) : list float :=
  let total_count := List.length labels in
  map (fun count => fdiv (of_int count) (of_int total_count))
      (dict_values (Counter Bool.eqb labels)).

Definition data_entropy (labeled_data : list example) : result float :=
  let labels := map snd labeled_data in
  let probabilities := class_probabilities labels in
  entropy probabilities.

(** Dividing by [total_count] raises [ZeroDivisionError] when all the
    subsets are empty. *)
Definition partition_entropy (subsets : list (list example))
  : result float :=
  let total_count := list_sum (map (@List.length example) subsets) in
  terms <- map_result
             (fun subset =>
                h <- data_entropy subset ;;
                if total_count =? 0 then Raise ZeroDivisionError
                else Ok (fdiv (fmul h (of_int (List.length subset)))
                              (of_int total_count)))
             subsets ;;
  Ok (py_sum terms).

Definition partition_entropy_by (inputs : list example) (attribute : string)
  : result float :=
  partitions <- partition_by inputs attribute ;;
  partition_entropy (dict_values partitions).

(** The loop of [min(iterable, key=key)]: the key of every element is
    computed, and the running minimum is replaced only by an element with
    a strictly smaller key. *)
Fixpoint min_loop {A : Type} (key : A -> result float)
         (best : A) (best_key : float) (xs : list A) : result A :=
  match xs with
  | [] => Ok best
  | x :: xs' =>
      k <- key x ;;
      if flt k best_key then min_loop key x k xs'
      else min_loop key best best_key xs'
  end.

Definition py_min {A : Type} (xs : list A) (key : A -> result float)
  : result A :=
  match xs with
  | [] => Raise ValueError
  | x :: xs' =>
      k <- key x ;;
      min_loop key x k xs'
  end.

(** ** Tree induction *)

(** [len([label for item, label in inputs if label])] and its
    complement. *)
Definition count_trues (inputs : list example) : nat :=
  List.length (filter (fun x => snd x) inputs).

Definition count_falses (inputs : list example) : nat :=
  List.length inputs - count_trues inputs.

(** The body of [build_tree_id3] once [split_candidates] is a list.  Every
    recursive call removes the chosen attribute from the candidates;
    [depth] bounds the nesting of calls. *)
Fixpoint build_tree_id3_rec (depth : nat) (inputs : list example)
         (split_candidates : list string) : result tree :=
  let num_trues := count_trues inputs in
  let num_falses := count_falses inputs in
  if num_trues =? 0 then Ok (Leaf false)
  else if num_falses =? 0 then Ok (Leaf true)
  else
    match split_candidates, depth with
    | [], _ => Ok (Leaf (num_falses <=? num_trues))
    | _ :: _, 0 => Raise RecursionError
    | _ :: _, S depth' =>
        best_attribute <-
          py_min split_candidates (partition_entropy_by inputs) ;;
        partitions <- partition_by inputs best_attribute ;;
        let new_candidates :=
          filter (fun a => negb (String.eqb a best_attribute))
                 split_candidates in
        subtrees <-
          map_result
            (fun p =>
               subtree <- build_tree_id3_rec depth' (snd p) new_candidates ;;
               Ok (Some (fst p), subtree))
            partitions ;;
        let subtrees :=
          dict_set key_eqb subtrees None (Leaf (num_falses <? num_trues)) in
        Ok (Node best_attribute subtrees)
    end.

(** [build_tree_id3(inputs, split_candidates=None)]: on the first pass the
    candidates are the keys of the first input. *)
Definition build_tree_id3 (inputs : list example)
           (split_candidates : option (list string)) : result tree :=
  split_candidates <-
    match split_candidates with
    | Some candidates => Ok candidates
    | None =>
        match inputs with
        | [] => Raise IndexError
        | first :: _ => Ok (dict_keys (fst first))
        end
    end ;;
  build_tree_id3_rec (List.length split_candidates) inputs split_candidates.

End ID3.

(** ** Two implementations of the float interface *)

(** Real numbers: the exact values that the floating-point operations
    approximate.  [math.log(p, 2)] is [log(p) / log(2)]. *)
Definition RealFloat : FloatOps := {|
  float := R;
  of_int := INR;
  fadd := Rplus;
  fmul := Rmult;
  fdiv := Rdiv;
  fneg := Ropp;
  flog2 := fun p =>
    if Rlt_dec 0 p then Some (ln p / ln 2)%R else None;
  ftruthy := fun p => if Req_dec_T p 0 then false else true;
  flt := fun a b => if Rlt_dec a b then true else false
|}.

(** Binary fixed point with 32 fractional bits, which computes: the number
    [x] is represented by the integer [floor (x * 2^32)]. *)
Module Fixed.
Local Open Scope Z_scope.

Definition one : Z := 2 ^ 32.

Definition mul (a b : Z) : Z := (a * b) / one.
Definition div (a b : Z) : Z := (a * one) / b.

(** Bits of the fractional part of the binary logarithm of a mantissa
    [m] in [[1, 2)], by repeated squaring. *)
Fixpoint log2_frac (bits : nat) (m weight : Z) : Z :=
  match bits with
  | O => 0
  | S bits' =>
      let m2 := mul m m in
      if 2 * one <=? m2 then weight + log2_frac bits' (m2 / 2) (weight / 2)
      else log2_frac bits' m2 (weight / 2)
  end.

Definition log2 (a : Z) : option Z :=
  if a <=? 0 then None
  else
    let e := Z.log2 a - 32 in
    let m := if 0 <=? e then a / 2 ^ e else a * 2 ^ (- e) in
    Some (e * one + log2_frac 32 m (one / 2)).

Definition ops : FloatOps := {|
  float := Z;
  of_int := fun n => Z.of_nat n * one;
  fadd := Z.add;
  fmul := mul;
  fdiv := div;
  fneg := Z.opp;
  flog2 := log2;
  ftruthy := fun p => negb (p =? 0);
  flt := Z.ltb
|}.
End Fixed.

(** ** The hiring data of the notebook *)

Definition candidate (level lang tweets phd : string) : attrs :=
  [("level", level); ("lang", lang); ("tweets", tweets); ("phd", phd)].

Definition inputs : list example :=
  [ (candidate "Senior" "Java" "no" "no", false);
    (candidate "Senior" "Java" "no" "yes", false);
    (candidate "Mid" "Python" "no" "no", true);
    (candidate "Junior" "Python" "no" "no", true);
    (candidate "Junior" "R" "yes" "no", true);
    (candidate "Junior" "R" "yes" "yes", false);
    (candidate "Mid" "R" "yes" "yes", true);
    (candidate "Senior" "Python" "no" "no", false);
    (candidate "Senior" "R" "yes" "no", true);
    (candidate "Junior" "Python" "yes" "no", true);
    (candidate "Senior" "Python" "yes" "yes", true);
    (candidate "Mid" "Python" "no" "yes", true);
    (candidate "Mid" "Java" "yes" "no", true);
    (candidate "Junior" "Python" "no" "yes", false) ].

(** The tree that the notebook prints for [build_tree_id3(inputs)]. *)
Definition hiring_tree : tree :=
  Node "level"
    [ (Some "Senior",
       Node "tweets"
         [(Some "no", Leaf false); (Some "yes", Leaf true);
          (None, Leaf false)]);
      (Some "Mid", Leaf true);
      (Some "Junior",
       Node "phd"
         [(Some "no", Leaf true); (Some "yes", Leaf false);
          (None, Leaf true)]);
      (None, Leaf true) ].

(** ** Predicates used by the statements *)

(** The majority label of the design document: the label that occurs most
    often, [true] on a tie. *)
Definition majority_label (examples : list example) : bool :=
  count_falses examples <=? count_trues examples.

(** Every decision node of the tree, at every depth, has the [None] key. *)
Fixpoint every_node_has_default (t : tree) : Prop :=
  match t with
  | Leaf _ => True
  | Node _ subtree_dict =>
      dict_mem key_eqb subtree_dict None = true /\
      (fix all (d : list (option string * tree)) : Prop :=
         match d with
         | [] => True
         | (_, subtree) :: d' => every_node_has_default subtree /\ all d'
         end) subtree_dict
  end.

Section Runs.
Context {FO : FloatOps}.

(** The run of [build_tree_id3_rec] on these arguments never takes the
    branch [if not split_candidates: return num_trues >= num_falses]:
    every leaf it creates comes from the two same-label tests.  The
    recursion follows the calls of [build_tree_id3_rec] itself. *)
Fixpoint pure_leaves_only_rec (depth : nat) (inputs : list example)
         (split_candidates : list string) : bool :=
  if count_trues inputs =? 0 then true
  else if count_falses inputs =? 0 then true
  else
    match split_candidates, depth with
    | [], _ => false
    | _ :: _, 0 => false
    | _ :: _, S depth' =>
        match py_min split_candidates (partition_entropy_by inputs) with
        | Raise _ => true
        | Ok best_attribute =>
            match partition_by inputs best_attribute with
            | Raise _ => true
            | Ok partitions =>
                let new_candidates :=
                  filter (fun a => negb (String.eqb a best_attribute))
                         split_candidates in
                forallb
                  (fun p =>
                     pure_leaves_only_rec depth' (snd p) new_candidates)
                  partitions
            end
        end
    end.

Definition pure_leaves_only (inputs : list example)
           (split_candidates : option (list string)) : bool :=
  match split_candidates, inputs with
  | Some candidates, _ =>
      pure_leaves_only_rec (List.length candidates) inputs candidates
  | None, first :: _ =>
      pure_leaves_only_rec (List.length (dict_keys (fst first))) inputs
                           (dict_keys (fst first))
  | None, [] => true
  end.
End Runs.

(** A [Counter] over booleans whose first key is [v]: [n] votes for [v],
    and [m] votes for the other value, which is a key only if [m > 0]. *)
Definition tally (v : bool) (n m : nat) : dict bool nat :=
  (v, n) :: (if m =? 0 then [] else [(negb v, m)]).

(** Example data for the statements. *)

(** One attribute, one example of each label: a tie at the root. *)
Definition tied_inputs : list example :=
  [ ([("a", "x")], true); ([("a", "y")], false) ].

(** An example without the attribute ["a"]. *)
Definition incomplete_inputs : list example :=
  [ ([("a", "x")], true); ([("b", "y")], false) ].

(** What the loop of [group_by] maintains: the keys are distinct, no group
    is empty, and every member of a group has the group's key. *)
Definition grouped {K A : Type} (key_fn : A -> result K)
           (groups : dict K (list A)) : Prop :=
  NoDup (dict_keys groups) /\
  forall k items, In (k, items) groups ->
    items <> [] /\ Forall (fun x => key_fn x = Ok k) items.

(** ** The entropy in the real numbers *)

(** Binary logarithm. *)
Definition lg (x : R) : R := (ln x / ln 2)%R.

(** The values that [entropy], [data_entropy] and [partition_entropy]
    return in the real instance, as plain functions. *)
Definition real_entropy (class_probabilities : list R) : R :=
  @py_sum RealFloat (map (fun p => (- p * lg p)%R) class_probabilities).

Definition real_data_entropy (labeled_data : list example) : R :=
  real_entropy (@class_probabilities RealFloat (map snd labeled_data)).

Definition real_partition_entropy (subsets : list (list example)) : R :=
  let total_count := list_sum (map (@List.length example) subsets) in
  @py_sum RealFloat
    (map (fun subset =>
            (real_data_entropy subset * INR (List.length subset)
             / INR total_count)%R)
         subsets).

(** The subsets of the hiring data by level, as the notebook forms
    [senior_inputs]. *)
Definition with_level (level : string) (x : example) : bool :=
  match dict_get String.eqb (fst x) "level" with
  | Some v => String.eqb v level
  | None => false
  end.

Definition senior_inputs : list example := filter (with_level "Senior") inputs.
Definition mid_inputs : list example := filter (with_level "Mid") inputs.
Definition junior_inputs : list example := filter (with_level "Junior") inputs.

(** ** Further predicates on trees and groups *)

(** The attributes that the decision nodes of a tree test. *)
Fixpoint tree_attributes (t : tree) : list string :=
  match t with
  | Leaf _ => []
  | Node attribute subtree_dict =>
      attribute ::
      (fix all (d : list (option string * tree)) : list string :=
         match d with
         | [] => []
         | (_, subtree) :: d' => tree_attributes subtree ++ all d'
         end) subtree_dict
  end.

(** The largest number of decision nodes on a path from the root. *)
Fixpoint tree_depth (t : tree) : nat :=
  match t with
  | Leaf _ => 0
  | Node _ subtree_dict =>
      S ((fix deepest (d : list (option string * tree)) : nat :=
            match d with
            | [] => 0
            | (_, subtree) :: d' => Nat.max (tree_depth subtree) (deepest d')
            end) subtree_dict)
  end.

(** Every decision node tests one of the candidates, and below it only the
    other candidates are tested. *)
Fixpoint splits_within (candidates : list string) (t : tree) {struct t}
  : Prop :=
  match t with
  | Leaf _ => True
  | Node attribute subtree_dict =>
      In attribute candidates /\
      (fix all (d : list (option string * tree)) : Prop :=
         match d with
         | [] => True
         | (_, subtree) :: d' =>
             splits_within
               (filter (fun a => negb (String.eqb a attribute)) candidates)
               subtree /\
             all d'
         end) subtree_dict
  end.


(** [has_value attribute k x]: the example [x] has the value [k] for the
    attribute. *)
Definition has_value (attribute k : string) (x : example) : bool :=
  key_eqb (dict_get String.eqb (fst x) attribute) (Some k).

(** [keyed eqb key_fn k x]: the key function gives the item [x] the key
    [k]. *)
Definition keyed {K A : Type} (eqb : K -> K -> bool) (key_fn : A -> result K)
           (k : K) (x : A) : bool :=
  match key_fn x with
  | Ok k' => eqb k' k
  | Raise _ => false
  end.

(** The candidates that [build_tree_id3] starts from: the ones given, or the
    keys of the first input. *)
Definition initial_candidates (inputs : list example)
           (split_candidates : option (list string)) : list string :=
  match split_candidates, inputs with
  | Some candidates, _ => candidates
  | None, first :: _ => dict_keys (fst first)
  | None, [] => []
  end.

(** The term that a label with [count] occurrences among [total_count]
    labels contributes to the entropy; a label that does not occur
    contributes nothing. *)
Definition entropy_term (count total_count : nat) : R :=
  if count =? 0 then 0%R
  else (- (INR count / INR total_count)
        * lg (INR count / INR total_count))%R.

(** [consistent inputs candidates]: examples that agree on all the
    candidates have the same label. *)
Definition consistent (inputs : list example) (candidates : list string)
  : Prop :=
  forall x lx y ly,
    In (x, lx) inputs -> In (y, ly) inputs ->
    (forall a, In a candidates ->
               dict_get String.eqb x a = dict_get String.eqb y a) ->
    lx = ly.

(** * Properties *)

(** ** The error monad *)

Lemma bind_Ok_inv {A B : Type} (r : result A) (k : A -> result B) (b : B) :
  bind r k = Ok b -> exists a, r = Ok a /\ k a = Ok b.
Proof.
  destruct r as [a | e]; simpl; intros H.
  - exists a; split; [reflexivity | exact H].
  - discriminate H.
Qed.

Ltac inv_bind H :=
  let a := fresh "v" in
  let H1 := fresh "E" in
  apply bind_Ok_inv in H; destruct H as (a & H1 & H).

Lemma map_result_Forall2 {A B : Type} (f : A -> result B) xs ys :
  map_result f xs = Ok ys -> Forall2 (fun x y => f x = Ok y) xs ys.
Proof.
  revert ys; induction xs as [| x xs IH]; simpl; intros ys H.
  - injection H as <-. constructor.
  - inv_bind H. inv_bind H. injection H as <-.
    constructor; [assumption | apply IH; assumption].
Qed.

Lemma map_result_total {A B : Type} (f : A -> result B) xs :
  Forall (fun x => exists y, f x = Ok y) xs ->
  exists ys, map_result f xs = Ok ys.
Proof.
  induction 1 as [| x xs [y Hy] _ [ys Hys]]; simpl.
  - eexists; reflexivity.
  - rewrite Hy, Hys; simpl. eexists; reflexivity.
Qed.

(** ** Dictionaries *)

Lemma key_eqb_eq (a b : option string) : key_eqb a b = true <-> a = b.
Proof.
  destruct a as [x |], b as [y |]; simpl; split; intros H;
    try discriminate; try reflexivity.
  - apply String.eqb_eq in H. congruence.
  - injection H as ->. apply String.eqb_refl.
Qed.

Lemma key_eqb_refl (a : option string) : key_eqb a a = true.
Proof. apply key_eqb_eq; reflexivity. Qed.

Section DictFacts.
Variables K V : Type.
Variable eqb : K -> K -> bool.
Hypothesis eqb_eq : forall a b, eqb a b = true <-> a = b.

Lemma eqb_refl' (a : K) : eqb a a = true.
Proof. apply eqb_eq; reflexivity. Qed.

Lemma eqb_false (a b : K) : a <> b -> eqb a b = false.
Proof.
  intros Hne. destruct (eqb a b) eqn:E; [| reflexivity].
  apply eqb_eq in E. contradiction.
Qed.

Lemma dict_mem_get (d : dict K V) (k : K) :
  dict_mem eqb d k = true <-> exists v, dict_get eqb d k = Some v.
Proof.
  induction d as [| [k' v'] d IH]; simpl.
  - split; [discriminate | intros [v H]; discriminate].
  - destruct (eqb k' k); simpl.
    + split; [intros _; eexists; reflexivity | reflexivity].
    + exact IH.
Qed.

Lemma dict_mem_keys (d : dict K V) (k : K) :
  dict_mem eqb d k = true <-> In k (dict_keys d).
Proof.
  induction d as [| [k' v'] d IH]; simpl.
  - split; [discriminate | contradiction].
  - destruct (eqb k' k) eqn:E; simpl.
    + apply eqb_eq in E. tauto.
    + rewrite IH. split; [tauto |].
      intros [-> | H]; [rewrite eqb_refl' in E; discriminate | exact H].
Qed.

Lemma dict_get_In (d : dict K V) (k : K) (v : V) :
  dict_get eqb d k = Some v -> In (k, v) d.
Proof.
  induction d as [| [k' v'] d IH]; simpl; [discriminate |].
  destruct (eqb k' k) eqn:E.
  - apply eqb_eq in E. intros [= <-]. left; congruence.
  - intros H; right; apply IH; exact H.
Qed.

Lemma In_dict_get (d : dict K V) (k : K) (v : V) :
  NoDup (dict_keys d) -> In (k, v) d -> dict_get eqb d k = Some v.
Proof.
  induction d as [| [k' v'] d IH]; simpl; [contradiction |].
  intros Hnd [Heq | Hin]; inversion Hnd as [| ? ? Hnotin Hnd']; subst.
  - injection Heq as -> ->. rewrite eqb_refl'. reflexivity.
  - destruct (eqb k' k) eqn:E.
    + apply eqb_eq in E; subst k'. exfalso; apply Hnotin.
      change k with (fst (k, v)). apply in_map. exact Hin.
    + apply IH; assumption.
Qed.

Lemma dict_set_mem (d : dict K V) (k : K) (v : V) :
  dict_mem eqb (dict_set eqb d k v) k = true.
Proof.
  induction d as [| [k' v'] d IH]; simpl.
  - rewrite eqb_refl'. reflexivity.
  - destruct (eqb k' k) eqn:E; simpl; rewrite E; simpl; [reflexivity | exact IH].
Qed.

Lemma dict_set_get_same (d : dict K V) (k : K) (v : V) :
  dict_get eqb (dict_set eqb d k v) k = Some v.
Proof.
  induction d as [| [k' v'] d IH]; simpl.
  - rewrite eqb_refl'. reflexivity.
  - destruct (eqb k' k) eqn:E; simpl; rewrite E; [reflexivity | exact IH].
Qed.

Lemma dict_set_get_other (d : dict K V) (k k0 : K) (v : V) :
  k <> k0 -> dict_get eqb (dict_set eqb d k v) k0 = dict_get eqb d k0.
Proof.
  intros Hne. induction d as [| [k' v'] d IH]; simpl.
  - rewrite (eqb_false Hne). reflexivity.
  - destruct (eqb k' k) eqn:E; simpl.
    + apply eqb_eq in E; subst k'. rewrite (eqb_false Hne). reflexivity.
    + destruct (eqb k' k0); [reflexivity | exact IH].
Qed.

Lemma dict_set_In (d : dict K V) (k k0 : K) (v v0 : V) :
  In (k0, v0) (dict_set eqb d k v) -> In (k0, v0) d \/ (k0, v0) = (k, v).
Proof.
  induction d as [| [k' v'] d IH]; simpl.
  - intros [H | []]. right; congruence.
  - destruct (eqb k' k) eqn:E; simpl.
    + apply eqb_eq in E; subst k'.
      intros [H | H]; [right; congruence | left; right; exact H].
    + intros [H | H]; [left; left; exact H |].
      destruct (IH H) as [H' | H']; [left; right; exact H' | right; exact H'].
Qed.
End DictFacts.

(** ** [group_by] *)

Section GroupFacts.
Variables K A : Type.
Variable eqb : K -> K -> bool.
Hypothesis eqb_eq : forall a b, eqb a b = true <-> a = b.
Variable key_fn : A -> result K.

Lemma dict_append_keys (groups : dict K (list A)) (key : K) (item : A) :
  forall k, In k (dict_keys (dict_append eqb groups key item)) ->
            In k (dict_keys groups) \/ k = key.
Proof.
  induction groups as [| [k' items] groups IH]; simpl; intros k.
  - intros [<- | []]; right; reflexivity.
  - destruct (eqb k' key) eqn:E; simpl.
    + intros H; left; exact H.
    + intros [<- | H]; [left; left; reflexivity |].
      destruct (IH k H) as [H' | H']; [left; right; exact H' | right; exact H'].
Qed.

Lemma dict_append_NoDup (groups : dict K (list A)) (key : K) (item : A) :
  NoDup (dict_keys groups) ->
  NoDup (dict_keys (dict_append eqb groups key item)).
Proof.
  induction groups as [| [k' items] groups IH]; simpl; intros Hnd.
  - constructor; [intros [] | constructor].
  - inversion Hnd as [| ? ? Hnotin Hnd']; subst.
    destruct (eqb k' key) eqn:E; simpl.
    + constructor; assumption.
    + constructor; [| apply IH; exact Hnd'].
      intros Hin. apply dict_append_keys in Hin.
      destruct Hin as [Hin | ->]; [contradiction |].
      rewrite (eqb_refl' eqb eqb_eq) in E. discriminate E.
Qed.

Lemma dict_append_In (groups : dict K (list A)) (key : K) (item : A) k items :
  In (k, items) (dict_append eqb groups key item) ->
  In (k, items) groups \/
  (k = key /\ exists old, items = old ++ [item] /\
                          (old = [] \/ In (k, old) groups)).
Proof.
  induction groups as [| [k' its] groups IH]; simpl.
  - intros [H | []]. injection H as <- <-.
    right; split; [reflexivity |]. exists []; split; [reflexivity | left; reflexivity].
  - destruct (eqb k' key) eqn:E; simpl.
    + apply eqb_eq in E; subst k'.
      intros [H | H]; [| left; right; exact H].
      injection H as <- <-. right; split; [reflexivity |].
      exists its; split; [reflexivity | right; left; reflexivity].
    + intros [H | H]; [left; left; exact H |].
      destruct (IH H) as [H' | (Hk & old & Hold & Hin)].
      * left; right; exact H'.
      * right; split; [exact Hk |]. exists old; split; [exact Hold |].
        destruct Hin as [-> | Hin]; [left; reflexivity | right; right; exact Hin].
Qed.

Lemma dict_append_grouped (groups : dict K (list A)) (key : K) (item : A) :
  key_fn item = Ok key -> grouped key_fn groups ->
  grouped key_fn (dict_append eqb groups key item).
Proof.
  intros Hkey [Hnd Hall]; split; [apply dict_append_NoDup; exact Hnd |].
  intros k items Hin. apply dict_append_In in Hin.
  destruct Hin as [Hin | (-> & old & -> & Hold)]; [apply Hall; exact Hin |].
  split; [destruct old; discriminate |].
  apply Forall_app; split; [| constructor; [exact Hkey | constructor]].
  destruct Hold as [-> | Hin]; [constructor | apply (Hall _ _ Hin)].
Qed.

Lemma dict_append_Permutation (groups : dict K (list A)) (key : K) (item : A) :
  Permutation (List.concat (dict_values (dict_append eqb groups key item)))
              (item :: List.concat (dict_values groups)).
Proof.
  induction groups as [| [k' items] groups IH]; simpl.
  - apply Permutation_refl.
  - destruct (eqb k' key); simpl.
    + rewrite <- app_assoc. simpl.
      apply Permutation_sym, Permutation_middle.
    + apply Permutation_trans with (items ++ item :: List.concat (dict_values groups)).
      * apply Permutation_app_head. exact IH.
      * apply Permutation_sym, Permutation_middle.
Qed.

Lemma group_by_loop_Ok items : forall groups groups',
  group_by_loop eqb items key_fn groups = Ok groups' ->
  (grouped key_fn groups -> grouped key_fn groups') /\
  Permutation (List.concat (dict_values groups'))
              (List.concat (dict_values groups) ++ items).
Proof.
  induction items as [| item items IH]; simpl; intros groups groups' H.
  - injection H as <-. rewrite app_nil_r. split; [tauto | apply Permutation_refl].
  - inv_bind H. destruct (IH _ _ H) as [Hg Hp]. split.
    + intros Hgr. apply Hg. apply dict_append_grouped; assumption.
    + eapply Permutation_trans; [exact Hp |].
      eapply Permutation_trans;
        [apply Permutation_app_tail, dict_append_Permutation |].
      simpl. apply Permutation_middle.
Qed.

Lemma group_by_loop_total items : forall groups,
  Forall (fun x => exists k, key_fn x = Ok k) items ->
  exists groups', group_by_loop eqb items key_fn groups = Ok groups'.
Proof.
  induction items as [| item items IH]; simpl; intros groups Hall.
  - eexists; reflexivity.
  - inversion Hall as [| ? ? [k Hk] Hall']; subst.
    rewrite Hk; simpl. apply IH; exact Hall'.
Qed.

Lemma group_by_loop_raises items e : forall groups,
  (forall x e', key_fn x = Raise e' -> e' = e) ->
  (exists x, In x items /\ key_fn x = Raise e) ->
  group_by_loop eqb items key_fn groups = Raise e.
Proof.
  intros groups Honly. revert groups.
  induction items as [| item items IH]; simpl; intros groups [x [Hin Hx]].
  - contradiction.
  - destruct (key_fn item) as [k | e'] eqn:Hk; simpl.
    + apply IH. exists x; split; [| exact Hx].
      destruct Hin as [-> | Hin]; [congruence | exact Hin].
    + f_equal. apply (Honly _ _ Hk).
Qed.

Lemma group_by_Ok items groups :
  group_by eqb items key_fn = Ok groups ->
  grouped key_fn groups /\ Permutation (List.concat (dict_values groups)) items.
Proof.
  intros H. apply group_by_loop_Ok in H. destruct H as [Hg Hp]. split.
  - apply Hg. split; [constructor | intros k its []].
  - exact Hp.
Qed.
End GroupFacts.

Lemma length_concat_sum {A : Type} (ls : list (list A)) :
  List.length (List.concat ls) = list_sum (map (@List.length A) ls).
Proof.
  induction ls as [| l ls IH]; simpl; [reflexivity |].
  rewrite length_app, IH. reflexivity.
Qed.

(** ** [partition_by] *)

Lemma getitem_Ok (x : attrs) (attribute k : string) :
  dict_getitem String.eqb x attribute = Ok k <->
  dict_get String.eqb x attribute = Some k.
Proof.
  unfold dict_getitem. destruct (dict_get String.eqb x attribute).
  - split; congruence.
  - split; discriminate.
Qed.

Lemma partition_by_Ok inputs attribute partitions :
  partition_by inputs attribute = Ok partitions ->
  NoDup (dict_keys partitions) /\
  Permutation (List.concat (dict_values partitions)) inputs /\
  forall k items, In (k, items) partitions ->
    items <> [] /\
    forall x, In x items ->
      In x inputs /\ dict_get String.eqb (fst x) attribute = Some k.
Proof.
  intros H. apply (group_by_Ok String.eqb String.eqb_eq) in H.
  destruct H as [[Hnd Hall] Hp].
  split; [exact Hnd |]. split; [exact Hp |].
  intros k items Hk. destruct (Hall _ _ Hk) as [Hne Hkeys].
  split; [exact Hne |]. intros x Hx. split.
  - apply (Permutation_in _ Hp). apply in_concat.
    exists items; split; [| exact Hx].
    change items with (snd (k, items)). apply in_map. exact Hk.
  - rewrite Forall_forall in Hkeys. apply getitem_Ok, Hkeys. exact Hx.
Qed.

(** C7. When every example has the attribute, [partition_by] succeeds and
    its groups hold each input example exactly once: the groups have
    distinct keys, the examples of all groups together are the input up to
    order, the group sizes add up to the input size, and an example sits in
    the group keyed by its own value of the attribute. *)
Theorem partition_by_exactly_once (inputs : list example) (attribute : string) :
  (forall x, In x inputs -> dict_mem String.eqb (fst x) attribute = true) ->
  exists partitions,
    partition_by inputs attribute = Ok partitions /\
    NoDup (dict_keys partitions) /\
    Permutation (List.concat (dict_values partitions)) inputs /\
    list_sum (map (@List.length example) (dict_values partitions))
      = List.length inputs /\
    forall k items x, In (k, items) partitions -> In x items ->
      dict_get String.eqb (fst x) attribute = Some k.
Proof.
  intros Hpresent.
  destruct (@group_by_loop_total string example String.eqb
              (fun x => dict_getitem String.eqb (fst x) attribute) inputs [])
    as [partitions Hp].
  { apply Forall_forall. intros x Hx.
    apply Hpresent, (dict_mem_get String.eqb) in Hx.
    destruct Hx as [v Hv]. exists v. apply getitem_Ok. exact Hv. }
  exists partitions. split; [exact Hp |].
  destruct (partition_by_Ok _ _ Hp) as (Hnd & Hperm & Hall).
  repeat split; try assumption.
  - rewrite <- length_concat_sum. apply Permutation_length. exact Hperm.
  - intros k items x Hin Hx. apply (Hall _ _ Hin). exact Hx.
Qed.

Lemma partition_by_exactly_once_witness :
  exists partitions,
    partition_by inputs "level" = Ok partitions /\
    NoDup (dict_keys partitions) /\
    Permutation (List.concat (dict_values partitions)) inputs /\
    list_sum (map (@List.length example) (dict_values partitions)) = 14.
Proof.
  destruct (@partition_by_exactly_once inputs "level")
    as (partitions & Hok & Hnd & Hperm & Hsum & _).
  - intros x Hx. simpl in Hx.
    repeat (destruct Hx as [<- | Hx]; [reflexivity |]). contradiction.
  - exists partitions. repeat split; assumption.
Defined.

(** C4 (as the code has it).  [partition_by] reads the attribute with a
    plain subscript: if some example lacks the attribute, the call raises
    [KeyError] and no group is produced. *)
Theorem partition_by_missing_attribute_raises
        (inputs : list example) (attribute : string) :
  (exists x, In x inputs /\ dict_get String.eqb (fst x) attribute = None) ->
  partition_by inputs attribute = Raise KeyError.
Proof.
  intros (x & Hin & Hx). unfold partition_by, group_by.
  apply group_by_loop_raises.
  - intros y e. unfold dict_getitem.
    destruct (dict_get String.eqb (fst y) attribute); congruence.
  - exists x; split; [exact Hin |]. unfold dict_getitem. rewrite Hx. reflexivity.
Qed.

Lemma partition_by_missing_attribute_raises_witness :
  partition_by incomplete_inputs "a" = Raise KeyError.
Proof.
  apply partition_by_missing_attribute_raises.
  exists ([("b", "y")], false). split; [simpl; tauto | reflexivity].
Defined.

(** C4, refuted as stated: the second example of [incomplete_inputs] lacks
    ["a"], and [partition_by] returns no grouping at all for it. *)
Lemma partition_by_no_missing_group :
  ~ exists partitions, partition_by incomplete_inputs "a" = Ok partitions.
Proof. intros [partitions H]. vm_compute in H. discriminate H. Qed.

(** ** The forest vote *)

Lemma counter_incr_tally (v x : bool) (n m : nat) :
  counter_incr Bool.eqb (tally v n m) x =
  if Bool.eqb v x then tally v (S n) m else tally v n (S m).
Proof.
  unfold tally; simpl. destruct (Bool.eqb v x) eqn:E; [reflexivity |].
  destruct m as [| m]; simpl.
  - destruct v, x; simpl in *; try discriminate; reflexivity.
  - destruct v, x; simpl in *; try discriminate; reflexivity.
Qed.

Lemma fold_counter_tally (votes : list bool) : forall v n m,
  fold_left (counter_incr Bool.eqb) votes (tally v n m) =
  tally v (n + count_occ bool_dec votes v)
          (m + count_occ bool_dec votes (negb v)).
Proof.
  induction votes as [| x votes IH]; intros v n m.
  - simpl. rewrite !Nat.add_0_r. reflexivity.
  - cbn [fold_left]. rewrite counter_incr_tally.
    destruct v, x; cbn [Bool.eqb negb]; rewrite IH; simpl; f_equal; lia.
Qed.

Lemma Counter_votes (v : bool) (votes : list bool) :
  Counter Bool.eqb (v :: votes) =
  tally v (S (count_occ bool_dec votes v)) (count_occ bool_dec votes (negb v)).
Proof.
  unfold Counter. cbn [fold_left counter_incr].
  change [(v, 1)] with (tally v 1 0). rewrite fold_counter_tally.
  reflexivity.
Qed.

Lemma most_common_tally (v : bool) (n m : nat) :
  most_common_1 (tally v n m) = [if n <? m then (negb v, m) else (v, n)].
Proof.
  unfold tally, most_common_1. destruct m as [| m]; simpl.
  - reflexivity.
  - destruct (match m with 0 => false | S m' => n <=? m' end) eqn:E.
    + reflexivity.
    + reflexivity.
Qed.

(** The vote of a non-empty forest whose trees all classify the input: the
    first tree's vote wins unless strictly more trees vote the other way. *)
Lemma forest_classify_votes (t : tree) (trees : list tree) (input : attrs)
      (v : bool) (votes : list bool) :
  map_result (fun t => classify t input) (t :: trees) = Ok (v :: votes) ->
  forest_classify (t :: trees) input =
  Ok (if S (count_occ bool_dec votes v) <? count_occ bool_dec votes (negb v)
      then negb v else v).
Proof.
  intros H. unfold forest_classify. rewrite H. cbn [bind].
  rewrite Counter_votes, most_common_tally.
  destruct (S (count_occ bool_dec votes v) <? count_occ bool_dec votes (negb v));
    reflexivity.
Qed.

(** C9. A forest of one tree classifies as the tree itself does, whether
    the tree returns a label or raises. *)
Theorem forest_classify_singleton (t : tree) (input : attrs) :
  forest_classify [t] input = classify t input.
Proof.
  unfold forest_classify. cbn [map_result].
  destruct (classify t input) as [b | e]; reflexivity.
Qed.

(** C10. When the votes of a non-empty forest are evenly split between
    [True] and [False], [forest_classify] returns the classification of the
    first tree: the [Counter] lists the first vote first and
    [most_common(1)] keeps the first of the largest counts.  In particular
    the result can be [False] on a tie. *)
Theorem forest_classify_tie_first_tree
        (t : tree) (trees : list tree) (input : attrs) (votes : list bool) :
  map_result (fun t => classify t input) (t :: trees) = Ok votes ->
  count_occ bool_dec votes true = count_occ bool_dec votes false ->
  forest_classify (t :: trees) input = classify t input.
Proof.
  intros Hvotes Htie. pose proof Hvotes as H. cbn [map_result] in H.
  inv_bind H. inv_bind H. injection H as <-.
  rewrite (forest_classify_votes _ _ _ Hvotes). rewrite E. f_equal.
  destruct (Nat.ltb_spec (S (count_occ bool_dec v0 v))
                         (count_occ bool_dec v0 (negb v))) as [Hlt | Hge];
    [| reflexivity].
  exfalso. destruct v; simpl in Htie, Hlt;
    repeat match type of Htie with
           | context [bool_dec ?a ?b] => destruct (bool_dec a b); try congruence
           end; lia.
Qed.

Lemma forest_classify_tie_first_tree_witness :
  forest_classify [Leaf false; Leaf true] [] = classify (Leaf false) [] /\
  forest_classify [Leaf false; Leaf true] [] = Ok false.
Proof.
  split.
  - apply (@forest_classify_tie_first_tree _ _ _ [false; true]);
      reflexivity.
  - reflexivity.
Defined.

(** ** [classify] *)

(** Induction on trees that reaches the subtrees of a decision node. *)
Lemma tree_nested_ind (P : tree -> Prop) :
  (forall b, P (Leaf b)) ->
  (forall attribute subtree_dict,
      Forall (fun p => P (snd p)) subtree_dict ->
      P (Node attribute subtree_dict)) ->
  forall t, P t.
Proof.
  intros Hleaf Hnode.
  fix IH 1. intros [b | attribute subtree_dict].
  - apply Hleaf.
  - apply Hnode. induction subtree_dict as [| [k s] d IHd].
    + constructor.
    + constructor; [apply IH | exact IHd].
Qed.

(** The subscript [subtree_dict[subtree_key]] followed by the recursive
    call, in terms of [dict_get]. *)
Lemma classify_Node (attribute : string) subtree_dict (input : attrs) :
  classify (Node attribute subtree_dict) input =
  let subtree_key := dict_get String.eqb input attribute in
  let subtree_key :=
    if dict_mem key_eqb subtree_dict subtree_key then subtree_key else None in
  match dict_get key_eqb subtree_dict subtree_key with
  | Some subtree => classify subtree input
  | None => Raise KeyError
  end.
Proof.
  cbn [classify]. cbv zeta.
  generalize (if dict_mem key_eqb subtree_dict
                          (dict_get String.eqb input attribute)
              then dict_get String.eqb input attribute else None).
  intros key. induction subtree_dict as [| [k s] d IH]; simpl.
  - reflexivity.
  - destruct (key_eqb k key); [reflexivity | exact IH].
Qed.

Lemma every_node_has_default_Node (attribute : string) subtree_dict :
  every_node_has_default (Node attribute subtree_dict) <->
  dict_mem key_eqb subtree_dict None = true /\
  Forall (fun p => every_node_has_default (snd p)) subtree_dict.
Proof.
  cbn [every_node_has_default].
  generalize (dict_mem key_eqb subtree_dict None). intros b.
  induction subtree_dict as [| [k s] d IH]; simpl.
  - split; intros [H _]; split; auto.
  - split.
    + intros [Hb [Hs Hd]]. split; [exact Hb |].
      constructor; [exact Hs | apply IH; split; assumption].
    + intros [Hb Hall]. inversion_clear Hall as [| ? ? Hs Hd].
      split; [exact Hb |]. split; [exact Hs | apply IH; split; assumption].
Qed.

(** A tree whose decision nodes all have the [None] key classifies every
    input: the subscript in [classify] always finds its key. *)
Lemma classify_total (t : tree) (input : attrs) :
  every_node_has_default t -> exists b, classify t input = Ok b.
Proof.
  induction t as [b | attribute subtree_dict IH] using tree_nested_ind;
    intros Hdef.
  - exists b; reflexivity.
  - apply every_node_has_default_Node in Hdef. destruct Hdef as [Hmem Hall].
    rewrite classify_Node. cbv zeta.
    set (key := if dict_mem key_eqb subtree_dict
                            (dict_get String.eqb input attribute)
                then dict_get String.eqb input attribute else None).
    assert (Hkey : dict_mem key_eqb subtree_dict key = true).
    { subst key.
      destruct (dict_mem key_eqb subtree_dict
                         (dict_get String.eqb input attribute)) eqn:E;
        assumption. }
    apply (dict_mem_get key_eqb) in Hkey. destruct Hkey as [s Hs].
    rewrite Hs. apply (dict_get_In key_eqb key_eqb_eq) in Hs.
    rewrite Forall_forall in IH, Hall.
    apply (IH _ Hs). apply (Hall _ Hs).
Qed.

(** ** [min] and the comprehension over the partitions *)

Lemma map_result_Raise {A B : Type} (f : A -> result B) xs e :
  map_result f xs = Raise e -> exists x, In x xs /\ f x = Raise e.
Proof.
  induction xs as [| x xs IH]; simpl; [discriminate |].
  destruct (f x) as [y | e'] eqn:Hx; simpl.
  - destruct (map_result f xs) as [ys | e'']; simpl; [discriminate |].
    intros [= ->]. destruct IH as (x' & Hin & Hx'); [reflexivity |].
    exists x'; split; [right; exact Hin | exact Hx'].
  - intros [= ->]. exists x; split; [left; reflexivity | exact Hx].
Qed.

Section BuildFacts.
Context {FO : FloatOps}.

Lemma min_loop_In {A : Type} (key : A -> result float) xs :
  forall best best_key b,
    min_loop key best best_key xs = Ok b -> b = best \/ In b xs.
Proof.
  induction xs as [| x xs IH]; simpl; intros best best_key b H.
  - injection H as <-. left; reflexivity.
  - inv_bind H. destruct (flt v best_key).
    + destruct (IH _ _ _ H) as [-> | Hin]; [right; left; reflexivity |].
      right; right; exact Hin.
    + destruct (IH _ _ _ H) as [-> | Hin]; [left; reflexivity |].
      right; right; exact Hin.
Qed.

(** [min] returns one of the elements it was given. *)
Lemma py_min_In {A : Type} (key : A -> result float) xs b :
  py_min xs key = Ok b -> In b xs.
Proof.
  destruct xs as [| x xs]; simpl; [discriminate |]. intros H.
  inv_bind H. destruct (min_loop_In _ _ _ _ H) as [-> | Hin];
    [left; reflexivity | right; exact Hin].
Qed.

Lemma min_loop_Raise {A : Type} (key : A -> result float) xs e :
  forall best best_key,
    min_loop key best best_key xs = Raise e -> exists x, key x = Raise e.
Proof.
  induction xs as [| x xs IH]; simpl; intros best best_key H.
  - discriminate H.
  - destruct (key x) as [k | e'] eqn:Hx; simpl in H.
    + destruct (flt k best_key); apply IH in H; exact H.
    + injection H as ->. exists x; exact Hx.
Qed.

Lemma py_min_Raise {A : Type} (key : A -> result float) xs e :
  py_min xs key = Raise e ->
  (xs = [] /\ e = ValueError) \/ exists x, key x = Raise e.
Proof.
  destruct xs as [| x xs]; simpl.
  - intros [= <-]. left; split; reflexivity.
  - destruct (key x) as [k | e'] eqn:Hx; simpl; intros H.
    + right. apply min_loop_Raise in H. exact H.
    + injection H as ->. right; exists x; exact Hx.
Qed.

(** ** Which exceptions the entropy code raises *)

Lemma entropy_terms_Raise ps e :
  entropy_terms ps = Raise e -> e = ValueError.
Proof.
  induction ps as [| p ps IH]; simpl; [discriminate |].
  destruct (ftruthy p); [| exact IH].
  destruct (flog2 p); [| congruence].
  destruct (entropy_terms ps); simpl; [discriminate |].
  intros [= <-]. apply IH; reflexivity.
Qed.

Lemma data_entropy_Raise labeled_data e :
  data_entropy labeled_data = Raise e -> e = ValueError.
Proof.
  unfold data_entropy, entropy.
  destruct (entropy_terms _) eqn:E; simpl; [discriminate |].
  intros [= <-]. apply entropy_terms_Raise in E. exact E.
Qed.

Lemma partition_by_Raise inputs attribute e :
  partition_by inputs attribute = Raise e -> e = KeyError.
Proof.
  unfold partition_by, group_by. generalize (@nil (string * list example)).
  induction inputs as [| x inputs IH]; simpl; intros groups; [discriminate |].
  unfold dict_getitem at 1.
  destruct (dict_get String.eqb (fst x) attribute); simpl.
  - apply IH.
  - congruence.
Qed.

Lemma partition_entropy_by_Raise inputs attribute e :
  partition_entropy_by inputs attribute = Raise e -> e <> RecursionError.
Proof.
  unfold partition_entropy_by.
  destruct (partition_by inputs attribute) as [partitions | e'] eqn:Hp; simpl.
  - unfold partition_entropy.
    destruct (map_result _ _) as [terms | e'] eqn:Ht; simpl; [discriminate |].
    intros [= <-]. apply map_result_Raise in Ht.
    destruct Ht as (subset & _ & Hs).
    destruct (data_entropy subset) as [h | e''] eqn:Hh; simpl in Hs.
    + destruct (_ =? 0); congruence.
    + apply data_entropy_Raise in Hh. congruence.
  - intros [= <-]. apply partition_by_Raise in Hp. congruence.
Qed.

(** ** One call of [build_tree_id3_rec] *)

Lemma build_tree_id3_rec_eq depth inputs split_candidates :
  build_tree_id3_rec depth inputs split_candidates =
  if count_trues inputs =? 0 then Ok (Leaf false)
  else if count_falses inputs =? 0 then Ok (Leaf true)
  else
    match split_candidates, depth with
    | [], _ => Ok (Leaf (count_falses inputs <=? count_trues inputs))
    | _ :: _, 0 => Raise RecursionError
    | _ :: _, S depth' =>
        best_attribute <-
          py_min split_candidates (partition_entropy_by inputs) ;;
        partitions <- partition_by inputs best_attribute ;;
        subtrees <-
          map_result
            (fun p =>
               subtree <-
                 build_tree_id3_rec depth' (snd p)
                   (filter (fun a => negb (String.eqb a best_attribute))
                           split_candidates) ;;
               Ok (Some (fst p), subtree))
            partitions ;;
        Ok (Node best_attribute
              (dict_set key_eqb subtrees None
                 (Leaf (count_falses inputs <? count_trues inputs))))
    end.
Proof. destruct depth; reflexivity. Qed.

Lemma pure_leaves_only_rec_eq depth inputs split_candidates :
  pure_leaves_only_rec depth inputs split_candidates =
  if count_trues inputs =? 0 then true
  else if count_falses inputs =? 0 then true
  else
    match split_candidates, depth with
    | [], _ => false
    | _ :: _, 0 => false
    | _ :: _, S depth' =>
        match py_min split_candidates (partition_entropy_by inputs) with
        | Raise _ => true
        | Ok best_attribute =>
            match partition_by inputs best_attribute with
            | Raise _ => true
            | Ok partitions =>
                forallb
                  (fun p =>
                     pure_leaves_only_rec depth' (snd p)
                       (filter (fun a => negb (String.eqb a best_attribute))
                               split_candidates))
                  partitions
            end
        end
    end.
Proof. destruct depth; reflexivity. Qed.

(** The four ways in which a call returns a tree. *)
Lemma build_tree_id3_rec_inv depth inputs split_candidates t :
  build_tree_id3_rec depth inputs split_candidates = Ok t ->
  (count_trues inputs = 0 /\ t = Leaf false) \/
  (count_trues inputs <> 0 /\ count_falses inputs = 0 /\ t = Leaf true) \/
  (count_trues inputs <> 0 /\ count_falses inputs <> 0 /\
   split_candidates = [] /\
   t = Leaf (count_falses inputs <=? count_trues inputs)) \/
  (count_trues inputs <> 0 /\ count_falses inputs <> 0 /\
   exists depth' best_attribute partitions subtrees,
     depth = S depth' /\
     py_min split_candidates (partition_entropy_by inputs)
       = Ok best_attribute /\
     partition_by inputs best_attribute = Ok partitions /\
     Forall2
       (fun p st =>
          fst st = Some (fst p) /\
          build_tree_id3_rec depth' (snd p)
            (filter (fun a => negb (String.eqb a best_attribute))
                    split_candidates) = Ok (snd st))
       partitions subtrees /\
     t = Node best_attribute
           (dict_set key_eqb subtrees None
              (Leaf (count_falses inputs <? count_trues inputs)))).
Proof.
  rewrite build_tree_id3_rec_eq.
  destruct (Nat.eqb_spec (count_trues inputs) 0) as [Ht | Ht].
  { intros [= <-]. left; split; [exact Ht | reflexivity]. }
  destruct (Nat.eqb_spec (count_falses inputs) 0) as [Hf | Hf].
  { intros [= <-]. right; left; repeat split; assumption. }
  destruct split_candidates as [| c cs].
  { intros [= <-]. right; right; left; repeat split; assumption. }
  destruct depth as [| depth']; [discriminate |].
  intros H. inv_bind H. inv_bind H. inv_bind H. injection H as <-.
  right; right; right. split; [exact Ht |]. split; [exact Hf |].
  exists depth', v, v0, v1. repeat split; try assumption.
  apply map_result_Forall2 in E1.
  eapply Forall2_impl; [| exact E1]. cbv beta.
  intros p st Hst. inv_bind Hst. injection Hst as <-. simpl.
  split; [reflexivity | assumption].
Qed.
End BuildFacts.

(** ** Trees returned by [build_tree_id3] *)

Lemma filter_length_all {A : Type} (f : A -> bool) (l : list A) :
  List.length (filter f l) = List.length l -> forall x, In x l -> f x = true.
Proof.
  induction l as [| a l IH]; simpl; [contradiction |].
  pose proof (filter_length_le f l) as Hle.
  destruct (f a) eqn:E; simpl; intros Hlen x [<- | Hin].
  - exact E.
  - apply IH; [lia | exact Hin].
  - lia.
  - lia.
Qed.

Lemma filter_length_none {A : Type} (f : A -> bool) (l : list A) :
  List.length (filter f l) = 0 -> forall x, In x l -> f x = false.
Proof.
  induction l as [| a l IH]; simpl; [contradiction |].
  destruct (f a) eqn:E; simpl; intros Hlen x [<- | Hin];
    try discriminate; [exact E | apply IH; assumption].
Qed.

Lemma count_trues_le (examples : list example) :
  count_trues examples <= List.length examples.
Proof. apply filter_length_le. Qed.

Lemma only_falses (examples : list example) x label :
  count_trues examples = 0 -> In (x, label) examples -> label = false.
Proof.
  intros H Hin. apply (filter_length_none _ _ H) in Hin. exact Hin.
Qed.

Lemma only_trues (examples : list example) x label :
  count_falses examples = 0 -> In (x, label) examples -> label = true.
Proof.
  unfold count_falses. intros H Hin. pose proof (count_trues_le examples).
  assert (Hlen : count_trues examples = List.length examples) by lia.
  apply (filter_length_all _ _ Hlen) in Hin. exact Hin.
Qed.

Lemma filter_In_shorter (best : string) (candidates : list string) :
  In best candidates ->
  List.length (filter (fun a => negb (String.eqb a best)) candidates)
  < List.length candidates.
Proof.
  induction candidates as [| c cs IH]; simpl; [contradiction |].
  pose proof (filter_length_le (fun a => negb (String.eqb a best)) cs).
  destruct (String.eqb_spec c best) as [-> | Hne]; simpl.
  - intros _. lia.
  - intros [-> | Hin]; [contradiction |]. apply IH in Hin. lia.
Qed.

Section TreeFacts.
Context {FO : FloatOps}.

(** The subtree stored under a token is the tree built from the group of
    that token. *)
Lemma subtrees_lookup depth' new_candidates
      (partitions : dict string (list example))
      (subtrees : list (option string * tree)) k items :
  Forall2
    (fun p st =>
       fst st = Some (fst p) /\
       build_tree_id3_rec depth' (snd p) new_candidates = Ok (snd st))
    partitions subtrees ->
  dict_get String.eqb partitions k = Some items ->
  exists subtree,
    dict_get key_eqb subtrees (Some k) = Some subtree /\
    build_tree_id3_rec depth' items new_candidates = Ok subtree.
Proof.
  induction 1 as [| [k' its] [k'' sub] partitions subtrees [Hk Hb] _ IH];
    simpl; [discriminate |].
  simpl in Hk, Hb. subst k''. simpl.
  destruct (String.eqb k' k).
  - intros [= <-]. exists sub; split; [reflexivity | exact Hb].
  - exact IH.
Qed.

Lemma subtrees_built depth' new_candidates
      (partitions : dict string (list example))
      (subtrees : list (option string * tree)) st :
  Forall2
    (fun p st =>
       fst st = Some (fst p) /\
       build_tree_id3_rec depth' (snd p) new_candidates = Ok (snd st))
    partitions subtrees ->
  In st subtrees ->
  exists p, In p partitions /\ fst st = Some (fst p) /\
            build_tree_id3_rec depth' (snd p) new_candidates = Ok (snd st).
Proof.
  induction 1 as [| p st' partitions subtrees Hst _ IH]; simpl;
    [contradiction |].
  intros [<- | Hin].
  - exists p; split; [left; reflexivity | exact Hst].
  - destruct (IH Hin) as (p' & Hp' & H'). exists p'; split; [right |]; assumption.
Qed.

(** The [None] entry of a decision node is [num_trues > num_falses]. *)
Lemma build_tree_id3_rec_default_child depth inputs split_candidates
      attribute subtree_dict :
  build_tree_id3_rec depth inputs split_candidates
    = Ok (Node attribute subtree_dict) ->
  dict_get key_eqb subtree_dict None
    = Some (Leaf (count_falses inputs <? count_trues inputs)).
Proof.
  intros H. apply build_tree_id3_rec_inv in H.
  destruct H as [[_ H] | [(_ & _ & H) | [(_ & _ & _ & H) |
                 (_ & _ & d & b & ps & sts & _ & _ & _ & _ & H)]]];
    try discriminate.
  injection H as -> ->. apply dict_set_get_same. exact key_eqb_eq.
Qed.

(** Every decision node of a tree that [build_tree_id3_rec] returns has
    the [None] key. *)
Lemma build_tree_id3_rec_default depth : forall inputs split_candidates t,
  build_tree_id3_rec depth inputs split_candidates = Ok t ->
  every_node_has_default t.
Proof.
  induction depth as [| depth IH]; intros inputs split_candidates t H;
    apply build_tree_id3_rec_inv in H;
    destruct H as [[_ ->] | [(_ & _ & ->) | [(_ & _ & _ & ->) |
                   (_ & _ & d & b & ps & sts & Hd & _ & _ & Hsts & ->)]]];
    try exact I; try discriminate.
  injection Hd as <-.
  apply every_node_has_default_Node. split.
  - apply dict_set_mem. exact key_eqb_eq.
  - apply Forall_forall. intros [k s] Hin.
    apply (dict_set_In key_eqb key_eqb_eq) in Hin.
    destruct Hin as [Hin | Heq].
    + destruct (@subtrees_built _ _ _ _ _ Hsts Hin) as (p & _ & _ & Hb).
      apply (IH _ _ _ Hb).
    + injection Heq as -> ->. exact I.
Qed.

Lemma build_tree_id3_inv inputs split_candidates t :
  build_tree_id3 inputs split_candidates = Ok t ->
  exists candidates,
    build_tree_id3_rec (List.length candidates) inputs candidates = Ok t /\
    match split_candidates with
    | Some given => candidates = given
    | None => exists first rest,
        inputs = first :: rest /\ candidates = dict_keys (fst first)
    end.
Proof.
  unfold build_tree_id3. intros H. inv_bind H. exists v; split; [exact H |].
  destruct split_candidates as [given |]; [congruence |].
  destruct inputs as [| first rest]; [discriminate |].
  exists first, rest. split; congruence.
Qed.

(** The recursion depth that [build_tree_id3] grants is never exhausted:
    each nested call has strictly fewer candidates. *)
Lemma build_tree_id3_rec_depth_suffices depth :
  forall inputs split_candidates,
    List.length split_candidates <= depth ->
    build_tree_id3_rec depth inputs split_candidates <> Raise RecursionError.
Proof.
  induction depth as [| depth IH]; intros inputs split_candidates Hlen;
    rewrite build_tree_id3_rec_eq;
    destruct (count_trues inputs =? 0); try discriminate;
    destruct (count_falses inputs =? 0); try discriminate;
    destruct split_candidates as [| c cs]; try discriminate.
  - simpl in Hlen. lia.
  - destruct (py_min (c :: cs) (partition_entropy_by inputs))
      as [best | e] eqn:Hmin; cbn [bind].
    + destruct (partition_by inputs best) as [partitions | e] eqn:Hp; cbn [bind].
      * destruct (map_result _ partitions) as [subtrees | e] eqn:Hs; cbn [bind];
          [discriminate |].
        intros [= ->]. apply map_result_Raise in Hs.
        destruct Hs as (p & _ & Hp').
        destruct (build_tree_id3_rec depth (snd p) _) eqn:Hb; cbn [bind] in Hp';
          [discriminate |].
        injection Hp' as ->. revert Hb. apply IH.
        apply py_min_In, filter_In_shorter in Hmin. lia.
      * intros [= ->]. apply partition_by_Raise in Hp. discriminate Hp.
    + intros [= ->]. apply py_min_Raise in Hmin.
      destruct Hmin as [[Hnil _] | [x Hx]]; [discriminate |].
      apply partition_entropy_by_Raise in Hx. congruence.
Qed.

Lemma build_tree_id3_depth_suffices inputs split_candidates :
  build_tree_id3 inputs split_candidates <> Raise RecursionError.
Proof.
  unfold build_tree_id3.
  destruct split_candidates as [given |]; simpl.
  - apply build_tree_id3_rec_depth_suffices. lia.
  - destruct inputs as [| first rest]; simpl; [discriminate |].
    apply build_tree_id3_rec_depth_suffices. lia.
Qed.

(** Without the majority fallback, the tree of a set of examples gives
    each of them its own label. *)
Lemma build_tree_id3_rec_fits depth : forall inputs split_candidates t,
  build_tree_id3_rec depth inputs split_candidates = Ok t ->
  pure_leaves_only_rec depth inputs split_candidates = true ->
  forall x label, In (x, label) inputs -> classify t x = Ok label.
Proof.
  induction depth as [| depth IH];
    intros inputs split_candidates t Hbuild Hpure x label Hin;
    rewrite pure_leaves_only_rec_eq in Hpure;
    apply build_tree_id3_rec_inv in Hbuild;
    destruct Hbuild as [[Ht ->] | [(_ & Hf & ->) | [(Ht & Hf & -> & ->) |
                 (Ht & Hf & d & best & ps & sts & Hd & Hmin & Hp & Hsts & ->)]]];
    try (simpl; f_equal; symmetry; eapply only_falses; eassumption);
    try (simpl; f_equal; symmetry; eapply only_trues; eassumption);
    try (apply Nat.eqb_neq in Ht, Hf; rewrite Ht, Hf in Hpure;
         discriminate Hpure);
    try discriminate.
  injection Hd as <-.
  apply Nat.eqb_neq in Ht, Hf. rewrite Ht, Hf, Hmin, Hp in Hpure.
  destruct split_candidates as [| c cs]; [discriminate |].
  rewrite forallb_forall in Hpure.
  destruct (partition_by_Ok _ _ Hp) as (Hnd & Hperm & Hgroups).
  assert (Hx : In (x, label) (List.concat (dict_values ps))).
  { apply (Permutation_in _ (Permutation_sym Hperm)). exact Hin. }
  apply in_concat in Hx. destruct Hx as (items & Hitems & Hx).
  apply in_map_iff in Hitems. destruct Hitems as ([k items'] & Heq & Hk).
  simpl in Heq; subst items'.
  destruct (Hgroups _ _ Hk) as [_ Hmembers].
  destruct (Hmembers _ Hx) as [_ Hvalue]. simpl in Hvalue.
  pose proof (In_dict_get String.eqb String.eqb_eq _ _ _ Hnd Hk) as Hget.
  destruct (@subtrees_lookup _ _ _ _ _ _ Hsts Hget) as (subtree & Hsub & Hb).
  assert (Hne : @None string <> Some k) by discriminate.
  rewrite classify_Node. cbv zeta. rewrite Hvalue.
  assert (Hlookup :
    dict_get key_eqb
      (dict_set key_eqb sts None
         (Leaf (count_falses inputs <? count_trues inputs)))
      (Some k) = Some subtree).
  { rewrite (dict_set_get_other key_eqb key_eqb_eq _ _ Hne). exact Hsub. }
  assert (Hmem :
    dict_mem key_eqb
      (dict_set key_eqb sts None
         (Leaf (count_falses inputs <? count_trues inputs)))
      (Some k) = true).
  { apply (dict_mem_get key_eqb). exists subtree. exact Hlookup. }
  rewrite Hmem, Hlookup.
  apply (IH _ _ _ Hb); [| exact Hx].
  apply (Hpure (k, items) Hk).
Qed.
End TreeFacts.

(** ** The claims about [build_tree_id3] and [classify] *)

(** C1. If the run of [build_tree_id3] on a training set creates leaves
    only through the same-label tests (no call runs out of candidates and
    returns the majority leaf), then the tree classifies every training
    example with that example's own label. *)
Theorem build_tree_id3_fits_training_set {FO : FloatOps}
        (inputs : list example) (split_candidates : option (list string))
        (t : tree) :
  build_tree_id3 inputs split_candidates = Ok t ->
  pure_leaves_only inputs split_candidates = true ->
  forall x label, In (x, label) inputs -> classify t x = Ok label.
Proof.
  intros Hbuild Hpure.
  apply build_tree_id3_inv in Hbuild.
  destruct Hbuild as (candidates & Hrec & Hcands).
  apply (build_tree_id3_rec_fits _ _ _ Hrec).
  destruct split_candidates as [given |].
  - subst candidates. exact Hpure.
  - destruct Hcands as (first & rest & -> & ->). exact Hpure.
Qed.

Lemma build_tree_id3_fits_training_set_witness :
  classify hiring_tree (candidate "Senior" "Python" "yes" "yes") = Ok true.
Proof.
  apply (@build_tree_id3_fits_training_set Fixed.ops inputs None hiring_tree).
  - vm_compute. reflexivity.
  - vm_compute. reflexivity.
  - simpl. do 10 right. left. reflexivity.
Defined.

(** C5. A tree that [build_tree_id3] returned classifies every input
    without raising, whichever attributes the input has and whatever their
    values: [classify] is a structural recursion on the tree, and each
    subscript finds either the input's value or the [None] key. *)
Theorem classify_never_raises {FO : FloatOps}
        (inputs : list example) (split_candidates : option (list string))
        (t : tree) (input : attrs) :
  build_tree_id3 inputs split_candidates = Ok t ->
  exists b, classify t input = Ok b.
Proof.
  intros Hbuild. apply build_tree_id3_inv in Hbuild.
  destruct Hbuild as (candidates & Hrec & _).
  apply classify_total. apply (build_tree_id3_rec_default _ _ _ Hrec).
Qed.

Lemma classify_never_raises_witness :
  exists b, classify hiring_tree [("level", "Intern"); ("shoe", "42")] = Ok b.
Proof.
  apply (@classify_never_raises Fixed.ops inputs None).
  vm_compute. reflexivity.
Defined.

(** C6. In a tree that [build_tree_id3] returned, every decision node, at
    every depth, has the [None] key in its child mapping. *)
Theorem build_tree_id3_default_everywhere {FO : FloatOps}
        (inputs : list example) (split_candidates : option (list string))
        (t : tree) :
  build_tree_id3 inputs split_candidates = Ok t ->
  every_node_has_default t.
Proof.
  intros Hbuild. apply build_tree_id3_inv in Hbuild.
  destruct Hbuild as (candidates & Hrec & _).
  apply (build_tree_id3_rec_default _ _ _ Hrec).
Qed.

Lemma build_tree_id3_default_everywhere_witness :
  every_node_has_default hiring_tree.
Proof.
  apply (@build_tree_id3_default_everywhere Fixed.ops inputs None).
  vm_compute. reflexivity.
Defined.

(** C8 (as the code has it).  With no training examples,
    [build_tree_id3] raises [IndexError] from [inputs[0]] when the
    candidates are left to their default, and returns the leaf [False] when
    candidates are given. *)
Theorem build_tree_id3_no_examples {FO : FloatOps} :
  build_tree_id3 [] None = Raise IndexError /\
  forall candidates, build_tree_id3 [] (Some candidates) = Ok (Leaf false).
Proof.
  split; [reflexivity |]. intros candidates. unfold build_tree_id3.
  cbn [bind]. rewrite build_tree_id3_rec_eq. reflexivity.
Qed.

(** C8, refuted as stated: with explicit candidates and no examples the
    call raises nothing; it returns a tree. *)
Lemma build_tree_id3_no_examples_returns_leaf :
  ~ exists e, @build_tree_id3 Fixed.ops [] (Some ["level"; "lang"]) = Raise e.
Proof. intros [e H]. vm_compute in H. discriminate H. Qed.

(** C3, at a tie.  On [tied_inputs] the root is a decision node with one
    [True] and one [False] example; the majority label with ties to [True]
    is [True], but the [None] child is the leaf [False], because the code
    compares with [num_trues > num_falses]. *)
Theorem default_child_on_tie :
  @build_tree_id3 Fixed.ops tied_inputs None
    = Ok (Node "a" [(Some "x", Leaf true); (Some "y", Leaf false);
                    (None, Leaf false)]) /\
  majority_label tied_inputs = true.
Proof. split; vm_compute; reflexivity. Qed.

(** ** The worked example in the real numbers *)

Lemma entropy_terms_real (ps : list R) :
  Forall (fun p => (0 < p)%R) ps ->
  @entropy_terms RealFloat ps = Ok (map (fun p => (- p * lg p)%R) ps).
Proof.
  induction 1 as [| p ps Hp _ IH]; [reflexivity |].
  cbn [entropy_terms map]. rewrite IH.
  unfold ftruthy, flog2; simpl.
  destruct (Req_dec_T p 0) as [-> | _]; [exfalso; lra |].
  destruct (Rlt_dec 0 p) as [_ | Hn]; [reflexivity | contradiction].
Qed.

Section CounterFacts.
Variable K : Type.
Variable eqb : K -> K -> bool.

Lemma counter_incr_pos (c : dict K nat) (k : K) :
  Forall (fun kn => 1 <= snd kn) c ->
  Forall (fun kn => 1 <= snd kn) (counter_incr eqb c k).
Proof.
  induction 1 as [| [k' n] c Hn Hc IH]; simpl.
  - constructor; [simpl; lia | constructor].
  - destruct (eqb k' k); constructor; simpl in *; try lia; assumption.
Qed.

Lemma Counter_pos (xs : list K) :
  Forall (fun kn => 1 <= snd kn) (Counter eqb xs).
Proof.
  unfold Counter. generalize (@Forall_nil (K * nat) (fun kn => 1 <= snd kn)).
  generalize (@nil (K * nat)).
  induction xs as [| x xs IH]; simpl; intros c Hc; [exact Hc |].
  apply IH. apply counter_incr_pos. exact Hc.
Qed.
End CounterFacts.

Lemma class_probabilities_pos (labels : list bool) :
  Forall (fun p => (0 < p)%R) (@class_probabilities RealFloat labels).
Proof.
  unfold class_probabilities, dict_values. rewrite map_map.
  apply Forall_map.
  destruct labels as [| l labels]; [constructor |].
  eapply Forall_impl; [| apply Counter_pos].
  intros [k n] Hn. simpl in Hn. cbn [snd fdiv of_int RealFloat].
  apply Rdiv_lt_0_compat; apply lt_0_INR; simpl; lia.
Qed.

Lemma data_entropy_real (labeled_data : list example) :
  @data_entropy RealFloat labeled_data = Ok (real_data_entropy labeled_data).
Proof.
  unfold data_entropy, entropy.
  rewrite entropy_terms_real by apply class_probabilities_pos.
  reflexivity.
Qed.

Lemma partition_entropy_real (subsets : list (list example)) :
  list_sum (map (@List.length example) subsets) <> 0 ->
  @partition_entropy RealFloat subsets = Ok (real_partition_entropy subsets).
Proof.
  intros Htotal. unfold partition_entropy, real_partition_entropy.
  apply Nat.eqb_neq in Htotal. rewrite Htotal.
  generalize (list_sum (map (@List.length example) subsets)). intros total.
  assert (H : forall ss,
    map_result
      (fun subset : list example =>
         h <- @data_entropy RealFloat subset ;;
         Ok (@fdiv RealFloat (@fmul RealFloat h (@of_int RealFloat (List.length subset)))
               (@of_int RealFloat total))) ss
    = Ok (map (fun subset =>
            (real_data_entropy subset * INR (List.length subset) / INR total)%R) ss)).
  { induction ss as [| s ss IH]; [reflexivity |].
    cbn [map_result map]. rewrite data_entropy_real, IH. reflexivity. }
  rewrite H. reflexivity.
Qed.

Lemma partition_entropy_by_real inputs attribute partitions :
  partition_by inputs attribute = Ok partitions ->
  inputs <> [] ->
  @partition_entropy_by RealFloat inputs attribute
  = Ok (real_partition_entropy (dict_values partitions)).
Proof.
  intros Hp Hne. unfold partition_entropy_by. rewrite Hp. cbn [bind].
  apply partition_entropy_real.
  destruct (partition_by_Ok _ _ Hp) as (_ & Hperm & _).
  rewrite <- length_concat_sum, (Permutation_length Hperm).
  destruct inputs; [contradiction | discriminate].
Qed.


(** ** Binary logarithms of small integers *)

Lemma ln_2_pos : (0 < ln 2)%R.
Proof. pose proof ln_lt_2. lra. Qed.

Lemma lg_1 : lg 1 = 0%R.
Proof. unfold lg. rewrite ln_1. unfold Rdiv. apply Rmult_0_l. Qed.

Lemma lg_2 : lg 2 = 1%R.
Proof. unfold lg. pose proof ln_2_pos. field. lra. Qed.

Lemma lg_mult (x y : R) :
  (0 < x)%R -> (0 < y)%R -> lg (x * y) = (lg x + lg y)%R.
Proof.
  intros Hx Hy. unfold lg. rewrite ln_mult by assumption.
  pose proof ln_2_pos. field. lra.
Qed.

Lemma lg_div (x y : R) :
  (0 < x)%R -> (0 < y)%R -> lg (x / y) = (lg x - lg y)%R.
Proof.
  intros Hx Hy. unfold lg. change (x / y)%R with (x * / y)%R.
  rewrite ln_mult by (try apply Rinv_0_lt_compat; assumption).
  rewrite ln_Rinv by assumption. pose proof ln_2_pos. field. lra.
Qed.

Lemma lg_INR_div (a b : nat) :
  0 < a -> 0 < b -> lg (INR a / INR b) = (lg (INR a) - lg (INR b))%R.
Proof. intros Ha Hb. apply lg_div; apply lt_0_INR; assumption. Qed.

Lemma lg_4 : lg 4 = 2%R.
Proof.
  replace 4%R with (2 * 2)%R by lra.
  rewrite lg_mult by lra. rewrite lg_2. lra.
Qed.

Lemma lg_8 : lg 8 = 3%R.
Proof.
  replace 8%R with (2 * 4)%R by lra.
  rewrite lg_mult by lra. rewrite lg_2, lg_4. lra.
Qed.

Lemma lg_6 : lg 6 = (1 + lg 3)%R.
Proof.
  replace 6%R with (2 * 3)%R by lra.
  rewrite lg_mult by lra. rewrite lg_2. reflexivity.
Qed.

(** [lg a < p / q] follows from [a ^ q < 2 ^ p], and likewise for [>]. *)
Lemma lg_scaled (a : Z) (q : nat) :
  (0 < a)%Z -> (INR q * lg (IZR a))%R = lg (IZR (a ^ Z.of_nat q)).
Proof.
  intros Ha. unfold lg. rewrite <- pow_IZR.
  rewrite ln_pow by (apply (IZR_lt 0); exact Ha).
  pose proof ln_2_pos. field. lra.
Qed.

Lemma lg_lt (a b : Z) :
  (0 < a)%Z -> (a < b)%Z -> (lg (IZR a) < lg (IZR b))%R.
Proof.
  intros Ha Hab. unfold lg. apply Rmult_lt_compat_r.
  - apply Rinv_0_lt_compat, ln_2_pos.
  - apply ln_increasing; [apply (IZR_lt 0); exact Ha | apply IZR_lt; exact Hab].
Qed.

Lemma lg_pow2 (p : nat) : lg (IZR (2 ^ Z.of_nat p)) = INR p.
Proof.
  rewrite <- lg_scaled by lia. rewrite lg_2. apply Rmult_1_r.
Qed.

Lemma lg_3_lower : (3 / 2 < lg 3)%R.
Proof.
  pose proof (@lg_scaled 3 2 ltac:(lia)) as H3.
  pose proof (lg_pow2 3) as H2.
  pose proof (@lg_lt (2 ^ 3) (3 ^ 2) ltac:(lia) ltac:(lia)) as Hlt.
  simpl in H3, H2, Hlt. lra.
Qed.

Lemma lg_3_upper : (lg 3 < 8 / 5)%R.
Proof.
  pose proof (@lg_scaled 3 5 ltac:(lia)) as H3.
  pose proof (lg_pow2 8) as H2.
  pose proof (@lg_lt (3 ^ 5) (2 ^ 8) ltac:(lia) ltac:(lia)) as Hlt.
  simpl in H3, H2, Hlt. lra.
Qed.

Lemma lg_5_upper : (lg 5 < 7 / 3)%R.
Proof.
  pose proof (@lg_scaled 5 3 ltac:(lia)) as H5.
  pose proof (lg_pow2 7) as H2.
  pose proof (@lg_lt (5 ^ 3) (2 ^ 7) ltac:(lia) ltac:(lia)) as Hlt.
  simpl in H5, H2, Hlt. lra.
Qed.

Lemma lg_7_lower : (14 / 5 < lg 7)%R.
Proof.
  pose proof (@lg_scaled 7 5 ltac:(lia)) as H7.
  pose proof (lg_pow2 14) as H2.
  pose proof (@lg_lt (2 ^ 14) (7 ^ 5) ltac:(lia) ltac:(lia)) as Hlt.
  simpl in H7, H2, Hlt. lra.
Qed.

Ltac partition_entropy_value :=
  erewrite partition_entropy_by_real; [| vm_compute; reflexivity | discriminate];
  f_equal;
  cbv -[INR Rplus Rmult Rdiv Ropp Rminus Rinv lg ln IZR];
  rewrite !lg_INR_div by lia;
  rewrite !INR_IZR_INZ; cbn [Z.of_nat Pos.of_succ_nat Pos.succ];
  rewrite ?lg_1, ?lg_2, ?lg_4, ?lg_6, ?lg_8;
  lra.

Lemma entropy_by_level :
  @partition_entropy_by RealFloat inputs "level"
  = Ok ((10 * lg 5 - 4 - 6 * lg 3) / 14)%R.
Proof. partition_entropy_value. Qed.

Lemma entropy_by_lang :
  @partition_entropy_by RealFloat inputs "lang"
  = Ok ((7 * lg 7 - 5 * lg 5 + 4) / 14)%R.
Proof. partition_entropy_value. Qed.

Lemma entropy_by_tweets :
  @partition_entropy_by RealFloat inputs "tweets"
  = Ok ((14 * lg 7 - 9 * lg 3 - 14) / 14)%R.
Proof. partition_entropy_value. Qed.

Lemma entropy_by_phd :
  @partition_entropy_by RealFloat inputs "phd"
  = Ok ((22 - 6 * lg 3) / 14)%R.
Proof. partition_entropy_value. Qed.

Lemma senior_entropy_by_lang :
  @partition_entropy_by RealFloat senior_inputs "lang" = Ok (2 / 5)%R.
Proof. partition_entropy_value. Qed.

Lemma senior_entropy_by_tweets :
  @partition_entropy_by RealFloat senior_inputs "tweets" = Ok 0%R.
Proof. partition_entropy_value. Qed.

Lemma senior_entropy_by_phd :
  @partition_entropy_by RealFloat senior_inputs "phd" = Ok (3 * lg 3 / 5)%R.
Proof. partition_entropy_value. Qed.

Lemma junior_entropy_by_lang :
  @partition_entropy_by RealFloat junior_inputs "lang" = Ok (3 * lg 3 / 5)%R.
Proof. partition_entropy_value. Qed.

Lemma junior_entropy_by_tweets :
  @partition_entropy_by RealFloat junior_inputs "tweets" = Ok (3 * lg 3 / 5)%R.
Proof. partition_entropy_value. Qed.

Lemma junior_entropy_by_phd :
  @partition_entropy_by RealFloat junior_inputs "phd" = Ok 0%R.
Proof. partition_entropy_value. Qed.

Ltac lg_bounds :=
  pose proof lg_3_lower; pose proof lg_3_upper;
  pose proof lg_5_upper; pose proof lg_7_lower.

(** One iteration of the loop of [min] in the real instance: the new key
    is not smaller ([keep_min]) or is smaller ([take_min]). *)
Ltac keep_min Hkey :=
  cbn [min_loop]; rewrite Hkey; cbn [bind];
  unfold flt; cbn [RealFloat];
  match goal with
  | |- context [Rlt_dec ?a ?b] =>
      destruct (Rlt_dec a b); [exfalso; lg_bounds; lra |]
  end.

Ltac take_min Hkey :=
  cbn [min_loop]; rewrite Hkey; cbn [bind];
  unfold flt; cbn [RealFloat];
  match goal with
  | |- context [Rlt_dec ?a ?b] =>
      destruct (Rlt_dec a b); [| exfalso; lg_bounds; lra]
  end.

Lemma best_attribute_root :
  @py_min RealFloat string ["level"; "lang"; "tweets"; "phd"]
          (partition_entropy_by inputs) = Ok "level".
Proof.
  unfold py_min. rewrite entropy_by_level. cbn [bind].
  keep_min entropy_by_lang. keep_min entropy_by_tweets.
  keep_min entropy_by_phd. reflexivity.
Qed.

Lemma best_attribute_senior :
  @py_min RealFloat string ["lang"; "tweets"; "phd"]
          (partition_entropy_by senior_inputs) = Ok "tweets".
Proof.
  unfold py_min. rewrite senior_entropy_by_lang. cbn [bind].
  take_min senior_entropy_by_tweets. keep_min senior_entropy_by_phd.
  reflexivity.
Qed.

Lemma best_attribute_junior :
  @py_min RealFloat string ["lang"; "tweets"; "phd"]
          (partition_entropy_by junior_inputs) = Ok "phd".
Proof.
  unfold py_min. rewrite junior_entropy_by_lang. cbn [bind].
  keep_min junior_entropy_by_tweets. take_min junior_entropy_by_phd.
  reflexivity.
Qed.

Lemma senior_subtree :
  @build_tree_id3_rec RealFloat 3 senior_inputs ["lang"; "tweets"; "phd"]
  = Ok (Node "tweets"
          [(Some "no", Leaf false); (Some "yes", Leaf true);
           (None, Leaf false)]).
Proof.
  rewrite build_tree_id3_rec_eq.
  change (count_trues senior_inputs =? 0) with false.
  change (count_falses senior_inputs =? 0) with false.
  cbv iota. rewrite best_attribute_senior. cbn [bind].
  reflexivity.
Qed.

Lemma junior_subtree :
  @build_tree_id3_rec RealFloat 3 junior_inputs ["lang"; "tweets"; "phd"]
  = Ok (Node "phd"
          [(Some "no", Leaf true); (Some "yes", Leaf false);
           (None, Leaf true)]).
Proof.
  rewrite build_tree_id3_rec_eq.
  change (count_trues junior_inputs =? 0) with false.
  change (count_falses junior_inputs =? 0) with false.
  cbv iota. rewrite best_attribute_junior. cbn [bind].
  reflexivity.
Qed.

Lemma hiring_tree_built :
  @build_tree_id3 RealFloat inputs None = Ok hiring_tree.
Proof.
  unfold build_tree_id3.
  change (@build_tree_id3_rec RealFloat 4 inputs
            ["level"; "lang"; "tweets"; "phd"] = Ok hiring_tree).
  rewrite build_tree_id3_rec_eq.
  change (count_trues inputs =? 0) with false.
  change (count_falses inputs =? 0) with false.
  cbv iota. rewrite best_attribute_root. cbn [bind].
  change (partition_by inputs "level")
    with (Ok [("Senior", senior_inputs); ("Mid", mid_inputs);
              ("Junior", junior_inputs)]).
  cbn [bind map_result fst snd].
  change (filter (fun a => negb (a =? "level")%string)
                 ["level"; "lang"; "tweets"; "phd"])
    with ["lang"; "tweets"; "phd"].
  rewrite senior_subtree, junior_subtree. reflexivity.
Qed.

(** ** The induction returns a tree on complete data *)

Lemma partition_by_total (inputs : list example) (attribute : string) :
  (forall x, In x inputs -> dict_mem String.eqb (fst x) attribute = true) ->
  exists partitions, partition_by inputs attribute = Ok partitions.
Proof.
  intros Hpresent. apply group_by_loop_total.
  apply Forall_forall. intros x Hx.
  apply Hpresent, (dict_mem_get String.eqb) in Hx.
  destruct Hx as [v Hv]. exists v. apply getitem_Ok. exact Hv.
Qed.

Lemma min_loop_total {FO : FloatOps} {A : Type} (key : A -> result float) xs :
  (forall x, In x xs -> exists k, key x = Ok k) ->
  forall best best_key, exists b, min_loop key best best_key xs = Ok b.
Proof.
  induction xs as [| x xs IH]; simpl; intros Hkeys best best_key.
  - exists best; reflexivity.
  - destruct (Hkeys x (or_introl eq_refl)) as [k Hk]. rewrite Hk; simpl.
    destruct (flt k best_key); apply IH; intros y Hy; apply Hkeys; right; exact Hy.
Qed.

Lemma py_min_total {FO : FloatOps} {A : Type} (key : A -> result float) xs :
  xs <> [] ->
  (forall x, In x xs -> exists k, key x = Ok k) ->
  exists b, py_min xs key = Ok b.
Proof.
  destruct xs as [| x xs]; [contradiction |]. intros _ Hkeys. simpl.
  destruct (Hkeys x (or_introl eq_refl)) as [k Hk]. rewrite Hk; simpl.
  apply min_loop_total. intros y Hy; apply Hkeys; right; exact Hy.
Qed.

(** In the real instance the induction returns a tree whenever every
    example has every candidate attribute. *)
Lemma build_tree_id3_rec_real_total depth : forall inputs split_candidates,
  (forall x a, In x inputs -> In a split_candidates ->
               dict_mem String.eqb (fst x) a = true) ->
  List.length split_candidates <= depth ->
  exists t, @build_tree_id3_rec RealFloat depth inputs split_candidates = Ok t.
Proof.
  induction depth as [| depth IH]; intros inputs split_candidates Hall Hlen;
    rewrite build_tree_id3_rec_eq;
    destruct (count_trues inputs =? 0) eqn:Ht; try (eexists; reflexivity);
    destruct (count_falses inputs =? 0); try (eexists; reflexivity);
    destruct split_candidates as [| c cs]; try (eexists; reflexivity).
  - simpl in Hlen. lia.
  - assert (Hne : inputs <> []).
    { intros ->. discriminate Ht. }
    destruct (@py_min_total RealFloat _ (partition_entropy_by inputs) (c :: cs))
      as [best Hbest]; [discriminate | |].
    { intros a Ha.
      destruct (@partition_by_total inputs a) as [partitions Hp].
      - intros x Hx. apply Hall; assumption.
      - eexists. apply (@partition_entropy_by_real _ _ _ Hp Hne). }
    rewrite Hbest. cbn [bind].
    pose proof (py_min_In _ _ Hbest) as Hin.
    destruct (@partition_by_total inputs best) as [partitions Hp].
    { intros x Hx. apply Hall; assumption. }
    rewrite Hp. cbn [bind].
    destruct (partition_by_Ok _ _ Hp) as (_ & _ & Hgroups).
    match goal with
    | |- context [map_result ?f partitions] =>
        destruct (@map_result_total _ _ f partitions) as [subtrees Hsub]
    end.
    { apply Forall_forall. intros [k items] Hk. cbn [fst snd].
      destruct (IH items
                  (filter (fun a => negb (a =? best)%string) (c :: cs)))
        as [subtree Hsubtree].
      - intros x a Hx Ha. apply Hall.
        + apply (Hgroups _ _ Hk). exact Hx.
        + apply filter_In in Ha. apply Ha.
      - apply filter_In_shorter in Hin. lia.
      - rewrite Hsubtree. eexists; reflexivity. }
    rewrite Hsub. cbn [bind]. eexists; reflexivity.
Qed.

Lemma build_tree_id3_real_total inputs first rest :
  inputs = first :: rest ->
  (forall x a, In x inputs -> In a (dict_keys (fst first)) ->
               dict_mem String.eqb (fst x) a = true) ->
  exists t, @build_tree_id3 RealFloat inputs None = Ok t.
Proof.
  intros -> Hall. unfold build_tree_id3. cbn [bind].
  apply build_tree_id3_rec_real_total; [exact Hall | lia].
Qed.

(** The fixed-point run builds the same tree. *)
Lemma hiring_tree_built_fixed_point :
  @build_tree_id3 Fixed.ops inputs None = Ok hiring_tree.
Proof. vm_compute. reflexivity. Qed.

(** C2. On the 14 rows of the hiring data, [build_tree_id3] returns a tree
    (the one the notebook prints) that classifies the junior Java candidate
    who tweets as [True] without a PhD and as [False] with one.  The
    entropies are compared as real numbers. *)
Theorem hiring_example_classified :
  exists t,
    @build_tree_id3 RealFloat inputs None = Ok t /\
    classify t (candidate "Junior" "Java" "yes" "no") = Ok true /\
    classify t (candidate "Junior" "Java" "yes" "yes") = Ok false.
Proof.
  exists hiring_tree. split; [exact hiring_tree_built |].
  split; reflexivity.
Qed.

(** * Further properties of the notebook's functions *)

Lemma filter_nothing {A : Type} (f : A -> bool) (l : list A) :
  (forall x, In x l -> f x = false) -> filter f l = [].
Proof.
  induction l as [| a l IH]; simpl; intros H; [reflexivity |].
  rewrite (H a (or_introl eq_refl)). apply IH. intros x Hx. apply H. right; exact Hx.
Qed.

(** ** Groups keep the order of the input *)

Section GroupOrder.
Variables K A : Type.
Variable eqb : K -> K -> bool.
Hypothesis eqb_eq : forall a b, eqb a b = true <-> a = b.
Variable key_fn : A -> result K.


Lemma dict_append_keys_incl (groups : dict K (list A)) (key : K) (item : A) :
  In key (dict_keys (dict_append eqb groups key item)) /\
  forall k, In k (dict_keys groups) ->
            In k (dict_keys (dict_append eqb groups key item)).
Proof.
  induction groups as [| [k' items] groups [IHkey IHincl]]; simpl.
  - split; [left; reflexivity | contradiction].
  - destruct (eqb k' key) eqn:E; simpl.
    + apply eqb_eq in E; subst k'. split; [left; reflexivity | tauto].
    + split; [right; exact IHkey |].
      intros k [<- | Hk]; [left; reflexivity | right; apply IHincl; exact Hk].
Qed.

Lemma dict_append_In_sharp (groups : dict K (list A)) (key : K) (item : A)
      k items :
  NoDup (dict_keys groups) ->
  In (k, items) (dict_append eqb groups key item) ->
  (k <> key /\ In (k, items) groups) \/
  (k = key /\ exists old, items = old ++ [item] /\
     (In (k, old) groups \/ (old = [] /\ ~ In key (dict_keys groups)))).
Proof.
  induction groups as [| [k' its] groups IH]; simpl; intros Hnd.
  - intros [H | []]. injection H as <- <-. right; split; [reflexivity |].
    exists []; split; [reflexivity |]. right; split; [reflexivity | tauto].
  - inversion Hnd as [| ? ? Hnotin Hnd']; subst.
    destruct (eqb k' key) eqn:E; simpl.
    + apply eqb_eq in E; subst k'. intros [H | H].
      * injection H as <- <-. right; split; [reflexivity |].
        exists its; split; [reflexivity |]. left; left; reflexivity.
      * left; split; [| right; exact H].
        intros ->. apply Hnotin. change key with (fst (key, items)).
        apply in_map. exact H.
    + intros [H | H].
      * injection H as <- <-. left; split; [| left; reflexivity].
        intros ->. rewrite (eqb_refl' eqb eqb_eq) in E. discriminate E.
      * destruct (IH Hnd' H) as [[Hne Hin] | (-> & old & -> & Hold)].
        -- left; split; [exact Hne | right; exact Hin].
        -- right; split; [reflexivity |]. exists old; split; [reflexivity |].
           destruct Hold as [Hin | [-> Hnot]].
           ++ left; right; exact Hin.
           ++ right; split; [reflexivity |]. intros [-> | Hk].
              ** rewrite (eqb_refl' eqb eqb_eq) in E. discriminate E.
              ** contradiction.
Qed.

Lemma group_by_loop_in_order items : forall groups processed groups',
  NoDup (dict_keys groups) ->
  (forall x, In x processed ->
     exists k, key_fn x = Ok k /\ In k (dict_keys groups)) ->
  (forall k its, In (k, its) groups -> its = filter (keyed eqb key_fn k) processed) ->
  group_by_loop eqb items key_fn groups = Ok groups' ->
  forall k its, In (k, its) groups' ->
                its = filter (keyed eqb key_fn k) (processed ++ items).
Proof.
  induction items as [| item items IH]; simpl;
    intros groups processed groups' Hnd Hcover Hgroups H.
  - injection H as <-. rewrite app_nil_r. exact Hgroups.
  - inv_bind H. rename v into key. intros k its Hin.
    replace (processed ++ item :: items)
      with ((processed ++ [item]) ++ items)
      by (rewrite <- app_assoc; reflexivity).
    revert k its Hin. apply (IH (dict_append eqb groups key item)).
    + apply dict_append_NoDup; assumption.
    + intros x Hx. apply in_app_or in Hx.
      destruct (dict_append_keys_incl groups key item) as [Hkey Hincl].
      destruct Hx as [Hx | [<- | []]].
      * destruct (Hcover x Hx) as (k & Hk & Hin). exists k; split; auto.
      * exists key; split; assumption.
    + intros k its Hin. rewrite filter_app. simpl.
      unfold keyed at 2. rewrite E.
      apply dict_append_In_sharp in Hin; [| exact Hnd].
      destruct Hin as [[Hne Hin] | (-> & old & -> & Hold)].
      * rewrite (eqb_false eqb eqb_eq) by congruence.
        rewrite app_nil_r. apply Hgroups. exact Hin.
      * rewrite (eqb_refl' eqb eqb_eq). f_equal.
        destruct Hold as [Hin | [-> Hnot]]; [apply Hgroups; exact Hin |].
        symmetry. apply filter_nothing.
        intros x Hx. destruct (Hcover x Hx) as (k & Hk & Hin).
        unfold keyed. rewrite Hk. apply (eqb_false eqb eqb_eq).
        intros ->. contradiction.
    + exact H.
Qed.
End GroupOrder.

(** X1. Every group that [partition_by] returns lists, in the order of the
    input, exactly the examples that have the group's value. *)
Theorem partition_by_groups_in_order
        (inputs : list example) (attribute : string)
        (partitions : dict string (list example)) :
  partition_by inputs attribute = Ok partitions ->
  forall k items, In (k, items) partitions ->
    items = filter (has_value attribute k) inputs.
Proof.
  intros H k items Hin.
  rewrite (@group_by_loop_in_order string example String.eqb String.eqb_eq
             (fun x => dict_getitem String.eqb (fst x) attribute)
             inputs [] [] partitions
             (NoDup_nil _) (fun x (F : In x []) => match F with end)
             (fun k its (F : In (k, its) []) => match F with end)
             H k items Hin).
  simpl. apply filter_ext. intros x. unfold has_value, keyed, dict_getitem.
  destruct (dict_get String.eqb (fst x) attribute); reflexivity.
Qed.

Lemma partition_by_groups_in_order_witness :
  junior_inputs = filter (has_value "level" "Junior") inputs.
Proof.
  apply (@partition_by_groups_in_order inputs "level"
           [("Senior", senior_inputs); ("Mid", mid_inputs);
            ("Junior", junior_inputs)]).
  - vm_compute. reflexivity.
  - simpl. right. right. left. reflexivity.
Defined.

(** ** Further facts on [classify] *)

Lemma dict_set_keys {K V : Type} (eqb : K -> K -> bool)
      (eqb_eq : forall a b, eqb a b = true <-> a = b)
      (d : dict K V) (k : K) (v : V) :
  ~ In k (dict_keys d) -> dict_keys (dict_set eqb d k v) = dict_keys d ++ [k].
Proof.
  induction d as [| [k' v'] d IH]; simpl; intros Hnot; [reflexivity |].
  rewrite (eqb_false eqb eqb_eq) by (intros ->; apply Hnot; left; reflexivity).
  simpl. f_equal. apply IH. intros Hin; apply Hnot; right; exact Hin.
Qed.

Lemma tree_attributes_Node (attribute : string) subtree_dict (a : string) :
  In a (tree_attributes (Node attribute subtree_dict)) <->
  a = attribute \/
  exists p, In p subtree_dict /\ In a (tree_attributes (snd p)).
Proof.
  cbn [tree_attributes]. simpl.
  assert (H : forall d,
    In a ((fix all (d : list (option string * tree)) : list string :=
             match d with
             | [] => []
             | (_, subtree) :: d' => tree_attributes subtree ++ all d'
             end) d) <->
    exists p, In p d /\ In a (tree_attributes (snd p))).
  { induction d as [| [k s] d IH]; simpl.
    - split; [contradiction | intros (p & [] & _)].
    - rewrite in_app_iff, IH. split.
      + intros [H | (p & Hp & Ha)].
        * exists (k, s); split; [left; reflexivity | exact H].
        * exists p; split; [right; exact Hp | exact Ha].
      + intros (p & [<- | Hp] & Ha); [left; exact Ha |].
        right; exists p; split; assumption. }
  rewrite H. split; intros [Heq | Hex]; auto.
Qed.

(** X2. [classify] raises nothing but [KeyError], and only on a tree that
    has a decision node without the [None] key. *)
Theorem classify_raises_only_KeyError (t : tree) (input : attrs) (e : exn) :
  classify t input = Raise e ->
  e = KeyError /\ ~ every_node_has_default t.
Proof.
  intros H. split.
  - revert H. induction t as [b | attribute subtree_dict IH]
      using tree_nested_ind; [discriminate |].
    rewrite classify_Node. cbv zeta.
    destruct (dict_get key_eqb subtree_dict _) as [subtree |] eqn:Hget.
    + apply (dict_get_In key_eqb key_eqb_eq) in Hget.
      rewrite Forall_forall in IH. apply (IH _ Hget).
    + congruence.
  - intros Hdef. destruct (classify_total t input Hdef) as [b Hb].
    congruence.
Qed.

Lemma classify_raises_only_KeyError_witness :
  KeyError = KeyError /\
  ~ every_node_has_default (Node "a" [(Some "x", Leaf true)]).
Proof.
  apply (@classify_raises_only_KeyError
           (Node "a" [(Some "x", Leaf true)]) [("a", "y")] KeyError).
  reflexivity.
Defined.

(** X3. [classify] reads only the attributes that the tree tests: two
    inputs that agree on them get the same result. *)
Theorem classify_reads_tested_attributes (t : tree) (input1 input2 : attrs) :
  (forall a, In a (tree_attributes t) ->
             dict_get String.eqb input1 a = dict_get String.eqb input2 a) ->
  classify t input1 = classify t input2.
Proof.
  induction t as [b | attribute subtree_dict IH] using tree_nested_ind;
    intros Hagree; [reflexivity |].
  rewrite !classify_Node. cbv zeta.
  rewrite <- (Hagree attribute)
    by (apply tree_attributes_Node; left; reflexivity).
  destruct (dict_get key_eqb subtree_dict _) as [subtree |] eqn:Hget;
    [| reflexivity].
  apply (dict_get_In key_eqb key_eqb_eq) in Hget.
  rewrite Forall_forall in IH. apply (IH _ Hget).
  intros a Ha. apply Hagree. apply tree_attributes_Node. right.
  eexists; split; [exact Hget | exact Ha].
Qed.

Lemma classify_reads_tested_attributes_witness :
  classify hiring_tree (candidate "Junior" "Java" "yes" "no")
  = classify hiring_tree (candidate "Junior" "Python" "yes" "no").
Proof.
  apply classify_reads_tested_attributes.
  intros a Ha. simpl in Ha.
  repeat (destruct Ha as [<- | Ha]; [reflexivity |]). contradiction.
Defined.

(** ** Decision nodes of built trees *)

Section NodeFacts.
Context {FO : FloatOps}.

(** How a decision node comes out of a call. *)
Lemma build_tree_id3_rec_Node depth inputs split_candidates attribute d :
  build_tree_id3_rec depth inputs split_candidates = Ok (Node attribute d) ->
  count_trues inputs <> 0 /\ count_falses inputs <> 0 /\
  exists depth' partitions subtrees,
    depth = S depth' /\
    py_min split_candidates (partition_entropy_by inputs) = Ok attribute /\
    partition_by inputs attribute = Ok partitions /\
    Forall2
      (fun p st =>
         fst st = Some (fst p) /\
         build_tree_id3_rec depth' (snd p)
           (filter (fun a => negb (String.eqb a attribute))
                   split_candidates) = Ok (snd st))
      partitions subtrees /\
    d = dict_set key_eqb subtrees None
          (Leaf (count_falses inputs <? count_trues inputs)).
Proof.
  intros H. apply build_tree_id3_rec_inv in H.
  destruct H as [[_ H] | [(_ & _ & H) | [(_ & _ & _ & H) |
                 (Ht & Hf & depth' & b & ps & sts & Hd & Hmin & Hp & Hsts & H)]]];
    try discriminate.
  injection H as -> ->. split; [exact Ht |]. split; [exact Hf |].
  exists depth', ps, sts. repeat split; assumption.
Qed.

Lemma subtrees_keys depth' new_candidates
      (partitions : dict string (list example))
      (subtrees : list (option string * tree)) :
  Forall2
    (fun p st =>
       fst st = Some (fst p) /\
       build_tree_id3_rec depth' (snd p) new_candidates = Ok (snd st))
    partitions subtrees ->
  dict_keys subtrees = map Some (dict_keys partitions).
Proof.
  induction 1 as [| p st partitions subtrees [Hk _] _ IH]; simpl;
    [reflexivity |].
  rewrite Hk. f_equal. exact IH.
Qed.

Lemma Some_keys_no_None (keys : list string) : ~ In None (map Some keys).
Proof. intros H. apply in_map_iff in H. destruct H as (k & Hk & _). discriminate. Qed.
End NodeFacts.

(** X4. When the root of the tree that [build_tree_id3] returns is a
    decision node and the input's value for its attribute (or the absence
    of one) occurs in no training example, [classify] answers with the
    [None] child: [True] exactly when the training set has strictly more
    [True] than [False] labels. *)
Theorem classify_unseen_value {FO : FloatOps}
        (inputs : list example) (split_candidates : option (list string))
        (attribute : string) (d : list (option string * tree))
        (input : attrs) :
  build_tree_id3 inputs split_candidates = Ok (Node attribute d) ->
  (forall x label, In (x, label) inputs ->
     dict_get String.eqb x attribute <> dict_get String.eqb input attribute) ->
  classify (Node attribute d) input
  = Ok (count_falses inputs <? count_trues inputs).
Proof.
  intros Hbuild Hunseen. apply build_tree_id3_inv in Hbuild.
  destruct Hbuild as (candidates & Hrec & _).
  apply build_tree_id3_rec_Node in Hrec.
  destruct Hrec as (_ & _ & depth' & ps & sts & _ & _ & Hp & Hsts & ->).
  pose proof (@subtrees_keys _ _ _ _ _ Hsts) as Hkeys.
  destruct (partition_by_Ok _ _ Hp) as (_ & _ & Hgroups).
  rewrite classify_Node. cbv zeta.
  set (leaf := Leaf (count_falses inputs <? count_trues inputs)).
  assert (Hfallback :
    (if dict_mem key_eqb (dict_set key_eqb sts None leaf)
                 (dict_get String.eqb input attribute)
     then dict_get String.eqb input attribute else None) = None).
  { destruct (dict_get String.eqb input attribute) as [v |] eqn:Hv;
      [| destruct (dict_mem _ _ _); reflexivity].
    destruct (dict_mem key_eqb (dict_set key_eqb sts None leaf) (Some v))
      eqn:Hmem; [| reflexivity].
    exfalso. apply (dict_mem_keys key_eqb key_eqb_eq) in Hmem.
    rewrite (dict_set_keys key_eqb key_eqb_eq) in Hmem
      by (rewrite Hkeys; apply Some_keys_no_None).
    apply in_app_or in Hmem. destruct Hmem as [Hmem | [Hmem | []]];
      [| discriminate].
    rewrite Hkeys in Hmem. apply in_map_iff in Hmem.
    destruct Hmem as (k & [= ->] & Hk).
    apply in_map_iff in Hk. destruct Hk as ([k items] & Hfst & Hin).
    simpl in Hfst; subst k.
    destruct (Hgroups _ _ Hin) as [Hne Hmembers].
    destruct items as [| [x label] items]; [contradiction |].
    destruct (Hmembers (x, label) (or_introl eq_refl)) as [Hx Hvalue].
    apply (Hunseen x label Hx). simpl in Hvalue. congruence. }
  rewrite Hfallback.
  rewrite (dict_set_get_same key_eqb key_eqb_eq). reflexivity.
Qed.

Lemma classify_unseen_value_witness :
  classify hiring_tree [("level", "Intern")] = Ok true.
Proof.
  apply (@classify_unseen_value Fixed.ops inputs None).
  - vm_compute. reflexivity.
  - intros x label Hin. simpl in Hin.
    repeat (destruct Hin as [[= <- <-] | Hin]; [discriminate |]).
    contradiction.
Defined.

(** ** Invariants of built trees *)

Lemma splits_within_Node candidates (attribute : string) subtree_dict :
  splits_within candidates (Node attribute subtree_dict) <->
  In attribute candidates /\
  Forall
    (fun p =>
       splits_within
         (filter (fun a => negb (String.eqb a attribute)) candidates) (snd p))
    subtree_dict.
Proof.
  cbn [splits_within]. apply and_iff_compat_l.
  induction subtree_dict as [| [k s] d IH]; simpl.
  - split; [constructor | trivial].
  - rewrite IH. split.
    + intros [Hs Hd]. constructor; assumption.
    + intros H. inversion_clear H. split; assumption.
Qed.


Lemma tree_depth_Node (attribute : string) subtree_dict (n : nat) :
  Forall (fun p => tree_depth (snd p) <= n) subtree_dict ->
  tree_depth (Node attribute subtree_dict) <= S n.
Proof.
  intros H. cbn [tree_depth]. apply le_n_S.
  induction H as [| [k s] d Hs _ IH]; simpl; [lia |].
  simpl in Hs. lia.
Qed.

Lemma splits_within_depth : forall t candidates,
  splits_within candidates t -> tree_depth t <= List.length candidates.
Proof.
  induction t as [b | attribute subtree_dict IH] using tree_nested_ind;
    intros candidates H; [simpl; lia |].
  apply splits_within_Node in H. destruct H as [Hin Hall].
  apply filter_In_shorter in Hin.
  eapply Nat.le_trans; [| exact Hin].
  apply tree_depth_Node. rewrite Forall_forall in *.
  intros p Hp. apply (IH p Hp). apply (Hall p Hp).
Qed.

Lemma some_true (examples : list example) :
  count_trues examples <> 0 -> exists x, In (x, true) examples.
Proof.
  unfold count_trues. induction examples as [| [x label] examples IH]; simpl;
    [congruence |].
  destruct label; simpl.
  - intros _. exists x; left; reflexivity.
  - intros H. destruct (IH H) as [y Hy]. exists y; right; exact Hy.
Qed.

Lemma some_false (examples : list example) :
  count_falses examples <> 0 -> exists x, In (x, false) examples.
Proof.
  unfold count_falses, count_trues.
  induction examples as [| [x label] examples IH]; simpl; [congruence |].
  destruct label; simpl.
  - intros H. destruct (IH H) as [y Hy]. exists y; right; exact Hy.
  - intros _. exists x; left; reflexivity.
Qed.

Section Invariants.
Context {FO : FloatOps}.

Lemma build_tree_id3_rec_splits depth : forall inputs split_candidates t,
  build_tree_id3_rec depth inputs split_candidates = Ok t ->
  splits_within split_candidates t.
Proof.
  induction depth as [| depth IH]; intros inputs split_candidates t H;
    apply build_tree_id3_rec_inv in H;
    destruct H as [[_ ->] | [(_ & _ & ->) | [(_ & _ & _ & ->) |
                   (_ & _ & d & b & ps & sts & Hd & Hmin & _ & Hsts & ->)]]];
    try exact I; try discriminate.
  injection Hd as <-.
  apply splits_within_Node. split; [apply (py_min_In _ _ Hmin) |].
  apply Forall_forall. intros [k s] Hin.
  apply (dict_set_In key_eqb key_eqb_eq) in Hin.
  destruct Hin as [Hin | Heq].
  - destruct (@subtrees_built _ _ _ _ _ _ Hsts Hin) as (p & _ & _ & Hb).
    apply (IH _ _ _ Hb).
  - injection Heq as -> ->. exact I.
Qed.


(** A built tree answers with a label of one of its examples. *)
Lemma build_tree_id3_rec_label_seen depth :
  forall inputs split_candidates t input b,
    build_tree_id3_rec depth inputs split_candidates = Ok t ->
    inputs <> [] ->
    classify t input = Ok b ->
    exists x, In (x, b) inputs.
Proof.
  induction depth as [| depth IH];
    intros inputs split_candidates t input b H Hne Hb;
    apply build_tree_id3_rec_inv in H;
    destruct H as [[Ht ->] | [(Ht & Hf & ->) | [(Ht & Hf & _ & ->) |
                   (Ht & Hf & d & best & ps & sts & Hd & _ & Hp & Hsts & ->)]]].
  1, 5: (injection Hb as <-; destruct inputs as [| [x label] rest];
         [contradiction |]; exists x;
         rewrite (@only_falses _ x label Ht (or_introl eq_refl));
         left; reflexivity).
  1, 4: (injection Hb as <-; destruct inputs as [| [x label] rest];
         [contradiction |]; exists x;
         rewrite (@only_trues _ x label Hf (or_introl eq_refl));
         left; reflexivity).
  1, 3: (destruct b; [apply some_true | apply some_false]; assumption).
  1: discriminate Hd.
  injection Hd as <-.
  rewrite classify_Node in Hb. cbv zeta in Hb.
  destruct (dict_get key_eqb _ _) as [subtree |] eqn:Hget; [| discriminate].
  apply (dict_get_In key_eqb key_eqb_eq) in Hget.
  apply (dict_set_In key_eqb key_eqb_eq) in Hget.
  destruct Hget as [Hin | Heq].
  - destruct (@subtrees_built _ _ _ _ _ _ Hsts Hin) as ([k items] & Hk & _ & Hbuilt).
    destruct (partition_by_Ok _ _ Hp) as (_ & _ & Hgroups).
    destruct (Hgroups _ _ Hk) as [Hitems Hmembers].
    simpl in Hbuilt.
    destruct (IH _ _ _ _ _ Hbuilt Hitems Hb) as [x Hx].
    exists x. apply (Hmembers _ Hx).
  - injection Heq as _ ->. injection Hb as <-.
    destruct (count_falses inputs <? count_trues inputs);
      [apply some_true | apply some_false]; assumption.
Qed.
End Invariants.

Lemma build_tree_id3_initial {FO : FloatOps} inputs split_candidates :
  build_tree_id3 inputs split_candidates =
  match split_candidates, inputs with
  | None, [] => Raise IndexError
  | _, _ =>
      build_tree_id3_rec
        (List.length (initial_candidates inputs split_candidates)) inputs
        (initial_candidates inputs split_candidates)
  end.
Proof.
  unfold build_tree_id3, initial_candidates.
  destruct split_candidates as [given |]; [reflexivity |].
  destruct inputs; reflexivity.
Qed.

Lemma build_tree_id3_Ok_initial {FO : FloatOps} inputs split_candidates t :
  build_tree_id3 inputs split_candidates = Ok t ->
  build_tree_id3_rec
    (List.length (initial_candidates inputs split_candidates)) inputs
    (initial_candidates inputs split_candidates) = Ok t.
Proof.
  rewrite build_tree_id3_initial.
  destruct split_candidates as [given |]; [trivial |].
  destruct inputs; [discriminate | trivial].
Qed.

(** X5. Every decision node of a tree that [build_tree_id3] returns tests
    one of the split candidates, and along a path from the root no
    attribute is tested twice: below a node that tests an attribute, only
    the other candidates are tested. *)
Theorem build_tree_id3_splits_on_candidates {FO : FloatOps}
        (inputs : list example) (split_candidates : option (list string))
        (t : tree) :
  build_tree_id3 inputs split_candidates = Ok t ->
  splits_within (initial_candidates inputs split_candidates) t.
Proof.
  intros H. apply build_tree_id3_Ok_initial in H.
  apply (build_tree_id3_rec_splits _ _ _ H).
Qed.

Lemma build_tree_id3_splits_on_candidates_witness :
  splits_within ["level"; "lang"; "tweets"; "phd"] hiring_tree.
Proof.
  apply (@build_tree_id3_splits_on_candidates Fixed.ops inputs None).
  vm_compute. reflexivity.
Defined.

(** X6. The tree that [build_tree_id3] returns is at most as deep as there
    are split candidates: [classify] passes through at most that many
    decision nodes. *)
Theorem build_tree_id3_depth_bound {FO : FloatOps}
        (inputs : list example) (split_candidates : option (list string))
        (t : tree) :
  build_tree_id3 inputs split_candidates = Ok t ->
  tree_depth t <= List.length (initial_candidates inputs split_candidates).
Proof.
  intros H. apply build_tree_id3_Ok_initial in H.
  apply splits_within_depth. apply (build_tree_id3_rec_splits _ _ _ H).
Qed.

Lemma build_tree_id3_depth_bound_witness : tree_depth hiring_tree <= 4.
Proof.
  apply (@build_tree_id3_depth_bound Fixed.ops inputs None).
  vm_compute. reflexivity.
Defined.



(** X8. A tree built from a non-empty training set only ever answers with
    a label that occurs in the training set. *)
Theorem classify_answers_training_label {FO : FloatOps}
        (inputs : list example) (split_candidates : option (list string))
        (t : tree) (input : attrs) (b : bool) :
  build_tree_id3 inputs split_candidates = Ok t ->
  inputs <> [] ->
  classify t input = Ok b ->
  exists x, In (x, b) inputs.
Proof.
  intros H Hne Hb. apply build_tree_id3_Ok_initial in H.
  apply (build_tree_id3_rec_label_seen _ _ _ H Hne Hb).
Qed.

Lemma classify_answers_training_label_witness :
  exists x, In (x, false) inputs.
Proof.
  apply (@classify_answers_training_label Fixed.ops inputs None hiring_tree
           [("level", "Senior")] false).
  - vm_compute. reflexivity.
  - discriminate.
  - reflexivity.
Defined.

(** ** Exceptions of the entropy code and of the induction *)

Lemma lacking_or_complete (inputs : list example) (attribute : string) :
  (exists x, In x inputs /\ dict_get String.eqb (fst x) attribute = None) \/
  (forall x, In x inputs -> dict_mem String.eqb (fst x) attribute = true).
Proof.
  induction inputs as [| x inputs [(y & Hy & Hnone) | Hall]].
  - right. intros x [].
  - left. exists y; split; [right; exact Hy | exact Hnone].
  - destruct (dict_get String.eqb (fst x) attribute) as [v |] eqn:Hv.
    + right. intros y [<- | Hy]; [| apply Hall; exact Hy].
      apply (dict_mem_get String.eqb). exists v; exact Hv.
    + left. exists x; split; [left; reflexivity | exact Hv].
Qed.

Lemma partition_by_Raise_lacking inputs attribute e :
  partition_by inputs attribute = Raise e ->
  e = KeyError /\
  exists x, In x inputs /\ dict_get String.eqb (fst x) attribute = None.
Proof.
  intros H. split; [apply (partition_by_Raise _ _ H) |].
  destruct (lacking_or_complete inputs attribute) as [Hex | Hall];
    [exact Hex |].
  destruct (@group_by_loop_total string example String.eqb
              (fun x => dict_getitem String.eqb (fst x) attribute) inputs [])
    as [partitions Hp].
  - apply Forall_forall. intros x Hx.
    apply Hall, (dict_mem_get String.eqb) in Hx.
    destruct Hx as [v Hv]. exists v. apply getitem_Ok. exact Hv.
  - unfold partition_by, group_by in H. congruence.
Qed.

Lemma length_le_list_sum {A : Type} (s : list A) (subsets : list (list A)) :
  In s subsets ->
  List.length s <= list_sum (map (@List.length A) subsets).
Proof.
  induction subsets as [| s' subsets IH]; simpl; [contradiction |].
  intros [-> | Hin]; [lia | apply IH in Hin; lia].
Qed.

Section Exceptions.
Context {FO : FloatOps}.

Lemma min_loop_Ok_keys {A : Type} (key : A -> result float) xs :
  forall best best_key b,
    min_loop key best best_key xs = Ok b ->
    forall x, In x xs -> exists k, key x = Ok k.
Proof.
  induction xs as [| y xs IH]; simpl; intros best best_key b H x Hx;
    [contradiction |].
  inv_bind H. destruct Hx as [<- | Hx]; [exists v; exact E |].
  destruct (flt v best_key); apply (IH _ _ _ H x Hx).
Qed.

(** [min] has computed the key of every element when it returns. *)
Lemma py_min_Ok_keys {A : Type} (key : A -> result float) xs b :
  py_min xs key = Ok b -> forall x, In x xs -> exists k, key x = Ok k.
Proof.
  destruct xs as [| y xs]; simpl; [discriminate |]. intros H x Hx.
  inv_bind H. destruct Hx as [<- | Hx]; [exists v; exact E |].
  apply (min_loop_Ok_keys _ _ _ _ H x Hx).
Qed.

Lemma partition_entropy_by_Raise_cases inputs attribute e :
  partition_entropy_by inputs attribute = Raise e ->
  (e = KeyError /\
   exists x, In x inputs /\ dict_get String.eqb (fst x) attribute = None) \/
  e = ValueError.
Proof.
  unfold partition_entropy_by.
  destruct (partition_by inputs attribute) as [partitions | e'] eqn:Hp;
    cbn [bind].
  - unfold partition_entropy.
    destruct (map_result _ _) as [terms | e'] eqn:Ht; cbn [bind];
      [discriminate |].
    intros [= <-]. right. apply map_result_Raise in Ht.
    destruct Ht as (subset & Hin & Hs).
    destruct (data_entropy subset) as [h | e''] eqn:Hh; cbn [bind] in Hs.
    + destruct (Nat.eqb_spec
                  (list_sum (map (@List.length example)
                                 (dict_values partitions))) 0)
        as [Hzero | _]; [| discriminate].
      exfalso. pose proof (length_le_list_sum _ _ Hin) as Hle.
      apply in_map_iff in Hin. destruct Hin as ([k items] & Heq & Hk).
      simpl in Heq; subst items.
      destruct (partition_by_Ok _ _ Hp) as (_ & _ & Hgroups).
      destruct (Hgroups _ _ Hk) as [Hne _].
      destruct subset; [contradiction | simpl in Hle; lia].
    + injection Hs as <-. apply (data_entropy_Raise _ Hh).
  - intros [= <-]. left. apply (partition_by_Raise_lacking _ _ Hp).
Qed.

Lemma partition_entropy_by_Ok_complete inputs attribute h :
  partition_entropy_by inputs attribute = Ok h ->
  forall x, In x inputs -> dict_get String.eqb (fst x) attribute <> None.
Proof.
  unfold partition_entropy_by. intros H. inv_bind H.
  destruct (partition_by_Ok _ _ E) as (_ & Hperm & Hgroups).
  intros x Hx. apply (Permutation_in _ (Permutation_sym Hperm)) in Hx.
  apply in_concat in Hx. destruct Hx as (items & Hitems & Hx).
  apply in_map_iff in Hitems. destruct Hitems as ([k items'] & Heq & Hk).
  simpl in Heq; subst items'.
  destruct (Hgroups _ _ Hk) as [_ Hmembers].
  destruct (Hmembers _ Hx) as [_ Hvalue]. congruence.
Qed.
End Exceptions.

(** X9. [partition_entropy] divides by the total size of the subsets: on a
    non-empty collection of empty subsets it raises [ZeroDivisionError]. *)
Theorem partition_entropy_empty_subsets {FO : FloatOps}
        (subsets : list (list example)) :
  subsets <> [] ->
  Forall (fun subset => subset = []) subsets ->
  partition_entropy subsets = Raise ZeroDivisionError.
Proof.
  intros Hne Hall. unfold partition_entropy.
  assert (Hsum : list_sum (map (@List.length example) subsets) = 0).
  { clear Hne. induction Hall as [| s subsets -> _ IH];
      [reflexivity | exact IH]. }
  rewrite Hsum.
  destruct Hall as [| s subsets -> _]; [contradiction |].
  reflexivity.
Qed.

Lemma partition_entropy_empty_subsets_witness :
  @partition_entropy Fixed.ops [[]; []] = Raise ZeroDivisionError.
Proof.
  apply partition_entropy_empty_subsets.
  - discriminate.
  - repeat constructor.
Defined.

(** X10. [partition_entropy_by] never divides by zero, because [group_by]
    makes no empty group.  When it raises, either some example lacks the
    attribute and the exception is [KeyError], or the exception is the
    [ValueError] of [math.log]. *)
Theorem partition_entropy_by_exceptions {FO : FloatOps}
        (inputs : list example) (attribute : string) (e : exn) :
  partition_entropy_by inputs attribute = Raise e ->
  (e = KeyError /\
   exists x, In x inputs /\ dict_get String.eqb (fst x) attribute = None) \/
  e = ValueError.
Proof. apply partition_entropy_by_Raise_cases. Qed.

Lemma partition_entropy_by_exceptions_witness :
  (KeyError = KeyError /\
   exists x, In x incomplete_inputs /\
             dict_get String.eqb (fst x) "a" = None) \/
  KeyError = ValueError.
Proof.
  apply (@partition_entropy_by_exceptions Fixed.ops incomplete_inputs "a").
  vm_compute. reflexivity.
Defined.

(** X11. When the training set has both labels and some example lacks one
    of the split candidates, [build_tree_id3] returns no tree: computing
    the entropies raises [KeyError] (or the [ValueError] of [math.log]). *)
Theorem build_tree_id3_incomplete_data_raises {FO : FloatOps}
        (inputs : list example) (split_candidates : option (list string)) :
  count_trues inputs <> 0 ->
  count_falses inputs <> 0 ->
  (exists x a,
     In x inputs /\ In a (initial_candidates inputs split_candidates) /\
     dict_get String.eqb (fst x) a = None) ->
  exists e,
    build_tree_id3 inputs split_candidates = Raise e /\
    (e = KeyError \/ e = ValueError).
Proof.
  intros Ht Hf (x & a & Hx & Ha & Hnone).
  rewrite build_tree_id3_initial.
  assert (Hrec :
    exists e,
      build_tree_id3_rec
        (List.length (initial_candidates inputs split_candidates)) inputs
        (initial_candidates inputs split_candidates) = Raise e /\
      (e = KeyError \/ e = ValueError)).
  { rewrite build_tree_id3_rec_eq.
    apply Nat.eqb_neq in Ht, Hf. rewrite Ht, Hf.
    destruct (initial_candidates inputs split_candidates) as [| c cs] eqn:Hc;
      [contradiction |].
    cbn [List.length].
    destruct (py_min (c :: cs) (partition_entropy_by inputs))
      as [best | e] eqn:Hmin; cbn [bind].
    - exfalso. destruct (py_min_Ok_keys _ _ Hmin a Ha) as [h Hh].
      apply (partition_entropy_by_Ok_complete _ _ Hh x Hx Hnone).
    - exists e; split; [reflexivity |].
      apply py_min_Raise in Hmin.
      destruct Hmin as [[Hnil _] | [a' Ha']]; [discriminate |].
      apply partition_entropy_by_Raise_cases in Ha'.
      destruct Ha' as [[-> _] | ->]; [left | right]; reflexivity. }
  destruct split_candidates as [given |]; [exact Hrec |].
  destruct inputs; [| exact Hrec].
  destruct Hx.
Qed.

Lemma build_tree_id3_incomplete_data_raises_witness :
  exists e,
    @build_tree_id3 Fixed.ops incomplete_inputs None = Raise e /\
    (e = KeyError \/ e = ValueError).
Proof.
  apply build_tree_id3_incomplete_data_raises.
  - discriminate.
  - discriminate.
  - exists ([("b", "y")], false), "a".
    split; [simpl; tauto |]. split; [simpl; tauto | reflexivity].
Defined.

(** ** The entropy of boolean labels in the real numbers *)

Lemma count_occ_bool (labels : list bool) :
  count_occ bool_dec labels true + count_occ bool_dec labels false
  = List.length labels.
Proof.
  induction labels as [| [|] labels IH]; simpl; lia.
Qed.

Lemma count_trues_labels (examples : list example) :
  count_trues examples = count_occ bool_dec (map snd examples) true.
Proof.
  unfold count_trues.
  induction examples as [| [x [|]] examples IH]; simpl; congruence.
Qed.

Lemma count_falses_labels (examples : list example) :
  count_falses examples = count_occ bool_dec (map snd examples) false.
Proof.
  unfold count_falses.
  assert (H : count_trues examples
              + count_occ bool_dec (map snd examples) false
              = List.length examples).
  { unfold count_trues.
    induction examples as [| [x [|]] examples IH]; simpl; lia. }
  lia.
Qed.

Lemma counts_total (examples : list example) :
  count_trues examples + count_falses examples = List.length examples.
Proof.
  unfold count_falses. pose proof (count_trues_le examples). lia.
Qed.

(** The entropy of a list of labels, by the counts of the two labels. *)
Lemma real_entropy_labels (labels : list bool) :
  real_entropy (@class_probabilities RealFloat labels)
  = (entropy_term (count_occ bool_dec labels true) (List.length labels)
     + entropy_term (count_occ bool_dec labels false) (List.length labels))%R.
Proof.
  destruct labels as [| v labels].
  - unfold real_entropy, py_sum, entropy_term. simpl. lra.
  - unfold class_probabilities. rewrite Counter_votes.
    generalize (List.length (v :: labels)). intros N.
    unfold tally, dict_values, real_entropy, py_sum, entropy_term.
    destruct v; cbn [negb count_occ];
      [destruct (bool_dec true true) as [_ | F]; [| contradiction];
       destruct (bool_dec true false) as [F | _]; [discriminate |]
      |destruct (bool_dec false false) as [_ | F]; [| contradiction];
       destruct (bool_dec false true) as [F | _]; [discriminate |]];
      cbn [Nat.eqb];
      [destruct (count_occ bool_dec labels false =? 0)
      |destruct (count_occ bool_dec labels true =? 0)];
      cbn [map snd fold_left of_int fadd fdiv fmul fneg RealFloat];
      change (INR 0) with 0%R; lra.
Qed.

Lemma real_data_entropy_by_counts (examples : list example) :
  real_data_entropy examples
  = (entropy_term (count_trues examples) (List.length examples)
     + entropy_term (count_falses examples) (List.length examples))%R.
Proof.
  unfold real_data_entropy.
  rewrite real_entropy_labels, <- count_trues_labels, <- count_falses_labels.
  rewrite length_map. reflexivity.
Qed.

Lemma entropy_term_full (n : nat) : entropy_term n n = 0%R.
Proof.
  unfold entropy_term. destruct (Nat.eqb_spec n 0) as [_ | Hn]; [reflexivity |].
  assert (Hpos : (0 < INR n)%R) by (apply lt_0_INR; lia).
  replace (INR n / INR n)%R with 1%R by (field; lra).
  rewrite lg_1. lra.
Qed.

Lemma entropy_term_half (n : nat) :
  n <> 0 -> entropy_term n (n + n) = (1 / 2)%R.
Proof.
  intros Hn. unfold entropy_term. apply Nat.eqb_neq in Hn as Hn'. rewrite Hn'.
  assert (Hpos : (0 < INR n)%R) by (apply lt_0_INR; lia).
  rewrite plus_INR.
  replace (INR n / (INR n + INR n))%R with (1 / 2)%R by (field; lra).
  rewrite lg_div by lra. rewrite lg_1, lg_2. lra.
Qed.

Lemma ln_le_minus_1 (y : R) : (0 < y)%R -> (ln y <= y - 1)%R.
Proof.
  intros Hy. pose proof (exp_ineq1_le (ln y)) as H.
  rewrite exp_ln in H by exact Hy. lra.
Qed.

Lemma entropy_term_nonneg (c n : nat) :
  c <= n -> (0 <= entropy_term c n)%R.
Proof.
  intros Hle. unfold entropy_term.
  destruct (Nat.eqb_spec c 0) as [_ | Hc]; [lra |].
  assert (Hcpos : (0 < INR c)%R) by (apply lt_0_INR; lia).
  assert (Hnpos : (0 < INR n)%R) by (apply lt_0_INR; lia).
  assert (Hcn : (INR c <= INR n)%R) by (apply le_INR; exact Hle).
  assert (Hp : (0 < INR c / INR n)%R) by (apply Rdiv_lt_0_compat; assumption).
  assert (Hp1 : (INR c / INR n <= 1)%R).
  { apply (Rmult_le_reg_r (INR n)); [exact Hnpos |].
    replace (INR c / INR n * INR n)%R with (INR c) by (field; lra). lra. }
  assert (Hlg : (lg (INR c / INR n) <= 0)%R).
  { unfold lg. pose proof ln_2_pos as H2.
    pose proof (ln_le_minus_1 Hp) as Hln.
    apply (Rmult_le_reg_r (ln 2)); [exact H2 |].
    replace (ln (INR c / INR n) / ln 2 * ln 2)%R
      with (ln (INR c / INR n)) by (field; lra).
    lra. }
  nra.
Qed.

(** The binary entropy is at most one bit. *)
Lemma binary_entropy_le_1 (p q : R) :
  (0 < p)%R -> (0 < q)%R -> (p + q = 1)%R ->
  (- p * lg p + - q * lg q <= 1)%R.
Proof.
  intros Hp Hq Hsum. unfold lg. pose proof ln_2_pos as H2.
  assert (Hlnp : (ln (/ (2 * p)) <= / (2 * p) - 1)%R)
    by (apply ln_le_minus_1, Rinv_0_lt_compat; lra).
  assert (Hlnq : (ln (/ (2 * q)) <= / (2 * q) - 1)%R)
    by (apply ln_le_minus_1, Rinv_0_lt_compat; lra).
  rewrite ln_Rinv, ln_mult in Hlnp, Hlnq by lra.
  assert (Hpp : (p * (- (ln 2 + ln p)) <= p * (/ (2 * p) - 1))%R)
    by (apply Rmult_le_compat_l; lra).
  assert (Hqq : (q * (- (ln 2 + ln q)) <= q * (/ (2 * q) - 1))%R)
    by (apply Rmult_le_compat_l; lra).
  replace (p * (/ (2 * p) - 1))%R with (1 / 2 - p)%R in Hpp by (field; lra).
  replace (q * (/ (2 * q) - 1))%R with (1 / 2 - q)%R in Hqq by (field; lra).
  apply (Rmult_le_reg_r (ln 2)); [exact H2 |].
  replace ((- p * (ln p / ln 2) + - q * (ln q / ln 2)) * ln 2)%R
    with (- p * ln p - q * ln q)%R by (field; lra).
  nra.
Qed.

Lemma filter_everything {A : Type} (f : A -> bool) (l : list A) :
  (forall x, In x l -> f x = true) -> filter f l = l.
Proof.
  induction l as [| a l IH]; simpl; intros H; [reflexivity |].
  rewrite (H a (or_introl eq_refl)). f_equal.
  apply IH. intros x Hx. apply H. right; exact Hx.
Qed.

Lemma same_labels_counts (examples : list example) :
  (forall x y, In x examples -> In y examples -> snd x = snd y) ->
  count_trues examples = 0 \/ count_falses examples = 0.
Proof.
  intros Hsame. destruct examples as [| [x0 b] rest]; [left; reflexivity |].
  destruct b.
  - right. unfold count_falses, count_trues.
    rewrite (@filter_everything _ (fun x : example => snd x));
      [apply Nat.sub_diag |].
    intros y Hy. apply (Hsame y (x0, true) Hy (or_introl eq_refl)).
  - left. unfold count_trues.
    rewrite (@filter_nothing _ (fun x : example => snd x)); [reflexivity |].
    intros y Hy. apply (Hsame y (x0, false) Hy (or_introl eq_refl)).
Qed.

(** X12. In exact arithmetic [data_entropy] always returns a value, and the
    entropy of a set of boolean labels lies between 0 and 1. *)
Theorem data_entropy_between_0_and_1 (labeled_data : list example) :
  exists h,
    @data_entropy RealFloat labeled_data = Ok h /\ (0 <= h <= 1)%R.
Proof.
  exists (real_data_entropy labeled_data).
  split; [apply data_entropy_real |].
  rewrite real_data_entropy_by_counts.
  pose proof (counts_total labeled_data) as Htot.
  set (t := count_trues labeled_data) in *.
  set (f := count_falses labeled_data) in *.
  set (n := List.length labeled_data) in *.
  pose proof (@entropy_term_nonneg t n ltac:(lia)) as Ht.
  pose proof (@entropy_term_nonneg f n ltac:(lia)) as Hf.
  split; [lra |].
  destruct (Nat.eq_dec t 0) as [Ht0 | Ht0].
  { assert (f = n) by lia. subst f. rewrite Ht0 at 1.
    replace (entropy_term 0 n) with 0%R by reflexivity.
    match goal with |- context [entropy_term ?a n] =>
      replace a with n by lia end.
    rewrite entropy_term_full. lra. }
  destruct (Nat.eq_dec f 0) as [Hf0 | Hf0].
  { assert (t = n) by lia. rewrite Hf0.
    replace (entropy_term 0 n) with 0%R by reflexivity.
    replace t with n by lia. rewrite entropy_term_full. lra. }
  unfold entropy_term.
  apply Nat.eqb_neq in Ht0 as Ht0'. apply Nat.eqb_neq in Hf0 as Hf0'.
  rewrite Ht0', Hf0'.
  assert (Htpos : (0 < INR t)%R) by (apply lt_0_INR; lia).
  assert (Hfpos : (0 < INR f)%R) by (apply lt_0_INR; lia).
  assert (Hn : INR n = (INR t + INR f)%R) by (rewrite <- plus_INR; f_equal; lia).
  apply binary_entropy_le_1.
  - apply Rdiv_lt_0_compat; lra.
  - apply Rdiv_lt_0_compat; lra.
  - rewrite Hn. field. lra.
Qed.

Lemma real_data_entropy_pure (labeled_data : list example) :
  (forall x y, In x labeled_data -> In y labeled_data -> snd x = snd y) ->
  real_data_entropy labeled_data = 0%R.
Proof.
  intros Hsame. rewrite real_data_entropy_by_counts.
  pose proof (counts_total labeled_data) as Htot.
  destruct (same_labels_counts _ Hsame) as [H0 | H0]; rewrite H0 in *.
  - replace (count_falses labeled_data) with (List.length labeled_data) by lia.
    rewrite entropy_term_full. unfold entropy_term. simpl. lra.
  - replace (count_trues labeled_data) with (List.length labeled_data) by lia.
    rewrite entropy_term_full. unfold entropy_term. simpl. lra.
Qed.

(** X13. In exact arithmetic the entropy of a set whose examples all have
    the same label is 0. *)
Theorem data_entropy_pure (labeled_data : list example) :
  (forall x y, In x labeled_data -> In y labeled_data -> snd x = snd y) ->
  @data_entropy RealFloat labeled_data = Ok 0%R.
Proof.
  intros Hsame. rewrite data_entropy_real. f_equal.
  apply real_data_entropy_pure. exact Hsame.
Qed.

Lemma data_entropy_pure_witness :
  @data_entropy RealFloat mid_inputs = Ok 0%R.
Proof.
  apply data_entropy_pure. intros x y Hx Hy. vm_compute in Hx, Hy.
  repeat (destruct Hx as [<- | Hx];
          [repeat (destruct Hy as [<- | Hy]; [reflexivity |]);
           contradiction |]).
  contradiction.
Defined.

(** X14. In exact arithmetic the entropy of a non-empty set with as many
    [True] as [False] labels is 1. *)
Theorem data_entropy_even_split (labeled_data : list example) :
  labeled_data <> [] ->
  count_trues labeled_data = count_falses labeled_data ->
  @data_entropy RealFloat labeled_data = Ok 1%R.
Proof.
  intros Hne Heven. rewrite data_entropy_real. f_equal.
  rewrite real_data_entropy_by_counts.
  pose proof (counts_total labeled_data) as Htot.
  rewrite <- Heven in *.
  assert (Hpos : count_trues labeled_data <> 0).
  { destruct labeled_data; [contradiction | simpl in Htot; lia]. }
  rewrite <- Htot. rewrite entropy_term_half by exact Hpos. lra.
Qed.

Lemma data_entropy_even_split_witness :
  @data_entropy RealFloat tied_inputs = Ok 1%R.
Proof.
  apply data_entropy_even_split.
  - discriminate.
  - reflexivity.
Defined.

(** X15. In exact arithmetic the class probabilities of a non-empty list
    of labels are positive and add up to 1. *)
Theorem class_probabilities_sum_to_1 (labels : list bool) :
  labels <> [] ->
  Forall (fun p => (0 < p)%R) (@class_probabilities RealFloat labels) /\
  @py_sum RealFloat (@class_probabilities RealFloat labels) = 1%R.
Proof.
  intros Hne. split; [apply class_probabilities_pos |].
  destruct labels as [| v labels]; [contradiction |].
  unfold class_probabilities. rewrite Counter_votes.
  pose proof (count_occ_bool labels) as Htot.
  assert (Hlen : INR (List.length (v :: labels))
                 = (INR (S (count_occ bool_dec labels v))
                    + INR (count_occ bool_dec labels (negb v)))%R).
  { rewrite <- plus_INR. f_equal. destruct v; simpl; lia. }
  assert (Hpos : (0 < INR (S (count_occ bool_dec labels v)))%R)
    by (apply lt_0_INR; lia).
  assert (Hnonneg : (0 <= INR (count_occ bool_dec labels (negb v)))%R)
    by apply pos_INR.
  unfold tally, dict_values, py_sum.
  destruct (Nat.eqb_spec (count_occ bool_dec labels (negb v)) 0) as [H0 | _];
    cbn [map snd fold_left of_int fadd fdiv float RealFloat];
    change (INR 0) with 0%R; rewrite Hlen.
  - rewrite H0. change (INR 0) with 0%R. field. lra.
  - field. lra.
Qed.

Lemma class_probabilities_sum_to_1_witness :
  Forall (fun p => (0 < p)%R)
         (@class_probabilities RealFloat [true; false; true]) /\
  @py_sum RealFloat (@class_probabilities RealFloat [true; false; true]) = 1%R.
Proof.
  apply class_probabilities_sum_to_1. discriminate.
Defined.

Lemma py_sum_zeros (terms : list R) :
  Forall (fun term => term = 0%R) terms -> @py_sum RealFloat terms = 0%R.
Proof.
  unfold py_sum. cbn [of_int fadd float RealFloat]. change (INR 0) with 0%R.
  intros Hzero.
  assert (H : forall acc : R, fold_left Rplus terms acc = acc).
  { induction Hzero as [| term terms -> _ IH]; intros acc; simpl;
      [reflexivity |].
    rewrite Rplus_0_r. apply IH. }
  apply H.
Qed.

(** X16. In exact arithmetic [partition_entropy] is 0 when, in every
    subset, all examples have the same label (and some subset is not
    empty, so that the division is defined). *)
Theorem partition_entropy_pure_subsets (subsets : list (list example)) :
  list_sum (map (@List.length example) subsets) <> 0 ->
  Forall (fun subset =>
            forall x y, In x subset -> In y subset -> snd x = snd y)
         subsets ->
  @partition_entropy RealFloat subsets = Ok 0%R.
Proof.
  intros Htotal Hpure. rewrite (@partition_entropy_real _ Htotal). f_equal.
  unfold real_partition_entropy. apply py_sum_zeros.
  apply Forall_map. eapply Forall_impl; [| exact Hpure].
  intros subset Hsame. cbv beta.
  rewrite (real_data_entropy_pure _ Hsame).
  unfold Rdiv. rewrite !Rmult_0_l. reflexivity.
Qed.

Lemma partition_entropy_pure_subsets_witness :
  @partition_entropy RealFloat
    [ [([("a", "x")], true)]; [([("a", "y")], false)] ] = Ok 0%R.
Proof.
  apply partition_entropy_pure_subsets.
  - discriminate.
  - repeat constructor; intros x y [<- | []] [<- | []]; reflexivity.
Defined.

(** ** The induction in exact arithmetic *)

Lemma candidates_lacking_or_complete (inputs : list example)
      (candidates : list string) :
  (exists x a, In x inputs /\ In a candidates /\
               dict_get String.eqb (fst x) a = None) \/
  (forall x a, In x inputs -> In a candidates ->
               dict_mem String.eqb (fst x) a = true).
Proof.
  induction candidates as [| c cs [(x & a & Hx & Ha & Hnone) | Hall]].
  - right. intros x a _ [].
  - left. exists x, a. repeat split; [exact Hx | right; exact Ha | exact Hnone].
  - destruct (lacking_or_complete inputs c) as [(x & Hx & Hnone) | Hc].
    + left. exists x, c. repeat split; [exact Hx | left; reflexivity | exact Hnone].
    + right. intros x a Hx [<- | Ha]; [apply Hc | apply Hall]; assumption.
Qed.

Lemma partition_entropy_by_real_Raise inputs attribute e :
  @partition_entropy_by RealFloat inputs attribute = Raise e ->
  inputs <> [] -> e = KeyError.
Proof.
  intros H Hne.
  destruct (partition_by inputs attribute) as [partitions | e'] eqn:Hp.
  - rewrite (@partition_entropy_by_real _ _ _ Hp Hne) in H. discriminate H.
  - unfold partition_entropy_by in H. rewrite Hp in H. injection H as <-.
    apply (partition_by_Raise _ _ Hp).
Qed.

Lemma build_tree_id3_rec_real_Raise depth : forall inputs split_candidates e,
  List.length split_candidates <= depth ->
  @build_tree_id3_rec RealFloat depth inputs split_candidates = Raise e ->
  e = KeyError.
Proof.
  induction depth as [| depth IH]; intros inputs split_candidates e Hlen;
    rewrite build_tree_id3_rec_eq;
    destruct (count_trues inputs =? 0) eqn:Ht; try discriminate;
    destruct (count_falses inputs =? 0); try discriminate;
    destruct split_candidates as [| c cs]; try discriminate.
  - simpl in Hlen. lia.
  - assert (Hne : inputs <> []) by (intros ->; discriminate Ht).
    destruct (py_min (c :: cs) (partition_entropy_by inputs))
      as [best | e'] eqn:Hmin; cbn [bind].
    + destruct (partition_by inputs best) as [partitions | e'] eqn:Hp;
        cbn [bind].
      * destruct (map_result _ partitions) as [subtrees | e'] eqn:Hs;
          cbn [bind]; [discriminate |].
        intros [= ->]. apply map_result_Raise in Hs.
        destruct Hs as (p & _ & Hp').
        destruct (build_tree_id3_rec depth (snd p) _) eqn:Hb;
          cbn [bind] in Hp'; [discriminate |].
        injection Hp' as ->. revert Hb. apply IH.
        apply py_min_In, filter_In_shorter in Hmin. lia.
      * intros [= ->]. apply (partition_by_Raise _ _ Hp).
    + intros [= ->]. apply py_min_Raise in Hmin.
      destruct Hmin as [[Hnil _] | [a Ha]]; [discriminate |].
      apply (partition_entropy_by_real_Raise _ Ha Hne).
Qed.

(** X17. In exact arithmetic [build_tree_id3] returns a tree whenever the
    training set is not empty and every example has every split candidate
    (by default, every key of the first example). *)
Theorem build_tree_id3_complete_data_returns
        (inputs : list example) (split_candidates : option (list string)) :
  inputs <> [] ->
  (forall x a,
     In x inputs -> In a (initial_candidates inputs split_candidates) ->
     dict_mem String.eqb (fst x) a = true) ->
  exists t, @build_tree_id3 RealFloat inputs split_candidates = Ok t.
Proof.
  intros Hne Hall. rewrite build_tree_id3_initial.
  destruct (@build_tree_id3_rec_real_total
              (List.length (initial_candidates inputs split_candidates))
              inputs (initial_candidates inputs split_candidates) Hall
              (le_n _)) as [t Ht].
  exists t. destruct split_candidates as [given |]; [exact Ht |].
  destruct inputs; [contradiction | exact Ht].
Qed.

Lemma build_tree_id3_complete_data_returns_witness :
  exists t, @build_tree_id3 RealFloat tied_inputs None = Ok t.
Proof.
  apply build_tree_id3_complete_data_returns.
  - discriminate.
  - intros x a Hx Ha. simpl in Hx, Ha.
    destruct Ha as [<- | []].
    destruct Hx as [<- | [<- | []]]; reflexivity.
Defined.

(** X18. In exact arithmetic [build_tree_id3] raises only [IndexError],
    when there is no example and the candidates are left to their default,
    or [KeyError], when some example lacks one of the split candidates. *)
Theorem build_tree_id3_real_exceptions
        (inputs : list example) (split_candidates : option (list string))
        (e : exn) :
  @build_tree_id3 RealFloat inputs split_candidates = Raise e ->
  (e = IndexError /\ inputs = [] /\ split_candidates = None) \/
  (e = KeyError /\
   exists x a,
     In x inputs /\ In a (initial_candidates inputs split_candidates) /\
     dict_get String.eqb (fst x) a = None).
Proof.
  rewrite build_tree_id3_initial. intros H.
  assert (Hrec :
    @build_tree_id3_rec RealFloat
      (List.length (initial_candidates inputs split_candidates)) inputs
      (initial_candidates inputs split_candidates) = Raise e ->
    e = KeyError /\
    exists x a,
      In x inputs /\ In a (initial_candidates inputs split_candidates) /\
      dict_get String.eqb (fst x) a = None).
  { intros Hr. split; [apply (build_tree_id3_rec_real_Raise _ _ (le_n _) Hr) |].
    destruct (candidates_lacking_or_complete inputs
                (initial_candidates inputs split_candidates))
      as [Hex | Hall]; [exact Hex |].
    destruct (@build_tree_id3_rec_real_total _ _ _ Hall (le_n _)) as [t Ht].
    congruence. }
  destruct split_candidates as [given |]; [right; apply Hrec; exact H |].
  destruct inputs; [| right; apply Hrec; exact H].
  injection H as <-. left. repeat split.
Qed.

Lemma build_tree_id3_real_exceptions_witness :
  (KeyError = IndexError /\ incomplete_inputs = [] /\
   @None (list string) = None) \/
  (KeyError = KeyError /\
   exists x a,
     In x incomplete_inputs /\
     In a (initial_candidates incomplete_inputs None) /\
     dict_get String.eqb (fst x) a = None).
Proof.
  apply (@build_tree_id3_real_exceptions incomplete_inputs None KeyError).
  reflexivity.
Defined.

(** ** Further facts on the forest vote *)

Lemma map_result_repeat {A B : Type} (f : A -> result B) (x : A) (y : B)
      (n : nat) :
  f x = Ok y -> map_result f (repeat x n) = Ok (repeat y n).
Proof.
  intros H. induction n as [| n IH]; simpl; [reflexivity |].
  rewrite H, IH. reflexivity.
Qed.

Lemma count_occ_repeat_other (b : bool) (n : nat) :
  count_occ bool_dec (repeat b n) (negb b) = 0.
Proof.
  induction n as [| n IH]; simpl; [reflexivity |].
  destruct (bool_dec b (negb b)) as [F | _]; [destruct b; discriminate |].
  exact IH.
Qed.

(** X19. A forest made of copies of one tree classifies as that tree does:
    building every member from the same data changes nothing. *)
Theorem forest_classify_copies (t : tree) (n : nat) (input : attrs) :
  forest_classify (repeat t (S n)) input = classify t input.
Proof.
  change (repeat t (S n)) with (t :: repeat t n).
  destruct (classify t input) as [b | e] eqn:Hc.
  - rewrite (@forest_classify_votes t (repeat t n) input b (repeat b n)).
    + rewrite count_occ_repeat_other. reflexivity.
    + apply (@map_result_repeat _ _ (fun t => classify t input) t b (S n) Hc).
  - unfold forest_classify. cbn [map_result]. rewrite Hc. reflexivity.
Qed.

(** X20. When every tree of the forest classifies the input and strictly
    more of them vote for one label than for the other, [forest_classify]
    returns that label. *)
Theorem forest_classify_majority
        (trees : list tree) (input : attrs) (votes : list bool) (b : bool) :
  map_result (fun t => classify t input) trees = Ok votes ->
  count_occ bool_dec votes (negb b) < count_occ bool_dec votes b ->
  forest_classify trees input = Ok b.
Proof.
  intros Hvotes Hmajority.
  destruct trees as [| t trees].
  { injection Hvotes as <-. simpl in Hmajority. lia. }
  pose proof Hvotes as H. cbn [map_result] in H.
  inv_bind H. inv_bind H. injection H as <-.
  rewrite (forest_classify_votes _ _ _ Hvotes). f_equal.
  rename v into first. rename v0 into rest.
  cbn [count_occ] in Hmajority.
  destruct (Nat.ltb_spec (S (count_occ bool_dec rest first))
                         (count_occ bool_dec rest (negb first)))
    as [Hlt | Hge];
    destruct first, b; cbn [negb] in *;
    repeat match type of Hmajority with
           | context [bool_dec ?x ?y] =>
               destruct (bool_dec x y); try discriminate; try contradiction
           end;
    try reflexivity; lia.
Qed.

Lemma forest_classify_majority_witness :
  forest_classify [Leaf false; Leaf true; Leaf true] [] = Ok true.
Proof.
  apply (@forest_classify_majority _ _ [false; true; true] true).
  - reflexivity.
  - simpl. lia.
Defined.

(** X21. [forest_classify] raises [IndexError] on an empty forest, and
    returns a label on a non-empty forest whose trees all have the [None]
    key at every decision node, as the trees of [build_tree_id3] do. *)
Theorem forest_classify_returns (trees : list tree) (input : attrs) :
  Forall every_node_has_default trees ->
  match trees with
  | [] => forest_classify trees input = Raise IndexError
  | _ :: _ => exists b, forest_classify trees input = Ok b
  end.
Proof.
  intros Hall. destruct trees as [| t trees]; [reflexivity |].
  destruct (@map_result_total _ _ (fun t => classify t input) (t :: trees))
    as [votes Hvotes].
  { eapply Forall_impl; [| exact Hall].
    intros t' Hdef. apply classify_total. exact Hdef. }
  pose proof Hvotes as H. cbn [map_result] in H.
  inv_bind H. inv_bind H. injection H as <-.
  rewrite (forest_classify_votes _ _ _ Hvotes). eexists; reflexivity.
Qed.

Lemma forest_classify_returns_witness :
  exists b, forest_classify [hiring_tree; Leaf false] [("level", "Mid")] = Ok b.
Proof.
  apply (@forest_classify_returns [hiring_tree; Leaf false]).
  repeat constructor.
Defined.

(** ** Consistent training sets *)

Section Consistent.
Context {FO : FloatOps}.

Lemma consistent_pure_leaves depth : forall inputs split_candidates,
  List.length split_candidates <= depth ->
  consistent inputs split_candidates ->
  pure_leaves_only_rec depth inputs split_candidates = true.
Proof.
  induction depth as [| depth IH]; intros inputs split_candidates Hlen Hcons;
    rewrite pure_leaves_only_rec_eq;
    destruct (Nat.eqb_spec (count_trues inputs) 0) as [| Ht];
    try reflexivity;
    destruct (Nat.eqb_spec (count_falses inputs) 0) as [| Hf];
    try reflexivity;
    (destruct split_candidates as [| c cs];
     [exfalso;
      destruct (@same_labels_counts inputs) as [H0 | H0];
      [intros [x lx] [y ly] Hx Hy; apply (Hcons x lx y ly Hx Hy);
       intros a []
      | contradiction | contradiction] |]).
  - simpl in Hlen. lia.
  - destruct (py_min (c :: cs) (partition_entropy_by inputs))
      as [best | e] eqn:Hmin; [| reflexivity].
    destruct (partition_by inputs best) as [partitions | e] eqn:Hp;
      [| reflexivity].
    destruct (partition_by_Ok _ _ Hp) as (_ & _ & Hgroups).
    apply forallb_forall. intros [k items] Hk. cbn [snd].
    destruct (Hgroups _ _ Hk) as [_ Hmembers].
    apply IH.
    + apply py_min_In, filter_In_shorter in Hmin. lia.
    + intros x lx y ly Hx Hy Hagree.
      destruct (Hmembers _ Hx) as [Hx' Hxv].
      destruct (Hmembers _ Hy) as [Hy' Hyv].
      apply (Hcons x lx y ly Hx' Hy'). intros a Ha.
      destruct (String.eqb_spec a best) as [-> | Hne].
      * simpl in Hxv, Hyv. congruence.
      * apply Hagree. apply filter_In. split; [exact Ha |].
        apply Bool.negb_true_iff, String.eqb_neq. exact Hne.
Qed.
End Consistent.

(** X22. If training examples that agree on every split candidate always
    have the same label, the tree that [build_tree_id3] returns classifies
    every training example with its own label: the majority leaf is never
    needed. *)
Theorem build_tree_id3_fits_consistent_data {FO : FloatOps}
        (inputs : list example) (split_candidates : option (list string))
        (t : tree) :
  build_tree_id3 inputs split_candidates = Ok t ->
  consistent inputs (initial_candidates inputs split_candidates) ->
  forall x label, In (x, label) inputs -> classify t x = Ok label.
Proof.
  intros Hbuild Hcons. apply build_tree_id3_Ok_initial in Hbuild.
  apply (build_tree_id3_rec_fits _ _ _ Hbuild).
  apply consistent_pure_leaves; [apply le_n | exact Hcons].
Qed.

Lemma build_tree_id3_fits_consistent_data_witness :
  classify (Node "a" [(Some "x", Leaf true); (Some "y", Leaf false);
                      (None, Leaf false)])
           [("a", "y")] = Ok false.
Proof.
  apply (@build_tree_id3_fits_consistent_data Fixed.ops tied_inputs None).
  - vm_compute. reflexivity.
  - intros x lx y ly Hx Hy Hagree. simpl in Hx, Hy.
    destruct Hx as [[= <- <-] | [[= <- <-] | []]];
      destruct Hy as [[= <- <-] | [[= <- <-] | []]];
      try reflexivity;
      specialize (Hagree "a" (or_introl eq_refl)); discriminate Hagree.
  - simpl. right. left. reflexivity.
Defined.
